(** * pygochan: Go-style channels for Python

    A shallow embedding of [pygochan.py] (classes [Channel] and [Selector],
    function [channel_select]) and the properties of its specification.

    Objects live in a store and are named by references, because the same
    [Selector] is put into the reader queues of several channels and the
    same [Channel] may occur more than once in the list given to
    [channel_select].  The body that a method runs while it holds its lock is
    one atomic transition of the store.  Waiting ([Event.wait]) happens after
    the lock is released and changes nothing: a call that has to wait ends
    with the outcome [Waiting], naming what it waits for. *)

From Stdlib Require Import ZArith Lia.
From stdpp Require Import base list.

(** ** Python values *)

(** The values that travel through channels are arbitrary Python objects;
    the code never inspects them.  The only object the code itself makes up
    is [None]. *)
Class PyObject (Value : Type) := PyNone : Value.

(** Instance used for concrete runs. *)
Inductive pyval := VNone | VInt (n : Z) | VTuple (a b : pyval).

#[export] Instance pyval_object : PyObject pyval := VNone.

(** References into the store. *)
Abbreviation ref := nat (only parsing).

(** The exceptions that leave the three entry points.  [ImpossibleError] is
    the plain [Exception] of line 63; [AttributeError] is what Python raises
    when an element of the list given to [channel_select] is not a channel. *)
Inductive exn :=
| Channel_Full
| Channel_Empty
| ImpossibleError
| AssertionError
| AttributeError.

Inductive waitee :=
| OnEvent (e : ref)
| OnSelector (s : ref).

(** How a call ends: it returns, it raises, or it is parked. *)
Inductive outcome (Value : Type) :=
| Returned (v : Value)
| Raised (e : exn)
| Waiting (w : waitee).
Arguments Returned {Value} v.
Arguments Raised {Value} e.
Arguments Waiting {Value} w.

(** Truth value of a deque: non-empty. *)
Definition truthy {A} (l : list A) : bool :=
  match l with [] => false | _ :: _ => true end.

(** ** class Selector *)

Module Selector.

Record t (Value : Type) := Build
  { _set : bool;
    _value : Value;
    _event : bool }.
Arguments Build {Value} _ _ _.
Arguments _set {Value} _.
Arguments _value {Value} _.
Arguments _event {Value} _.

Section Methods.
Context {Value : Type} `{PyObject Value}.

(** [__init__] *)
Definition init : t Value :=
  {| _set := false; _value := PyNone; _event := false |}.

Definition stale (self : t Value) : bool := _set self.

Definition offer (self : t Value) (value : Value) : t Value * bool :=
  if _set self then (self, false)
  else ({| _set := true; _value := value; _event := true |}, true).

(** [get]: [None] while the event is not set (the caller waits). *)
Definition get (self : t Value) : option Value :=
  if _event self then Some (_value self) else None.
End Methods.

End Selector.

(** ** The store of selectors and writer events *)

Record Heap (Value : Type) := mkHeap
  { selectors : list (Selector.t Value);
    events : list bool }.
Arguments mkHeap {Value} _ _.
Arguments selectors {Value} _.
Arguments events {Value} _.

Section Store.
Context {Value : Type} `{PyObject Value}.

(** [Selector()] *)
Definition new_selector (h : Heap Value) : Heap Value * ref :=
  (mkHeap (selectors h ++ [Selector.init]) (events h), length (selectors h)).

(** [threading.Event()] *)
Definition new_event (h : Heap Value) : Heap Value * ref :=
  (mkHeap (selectors h) (events h ++ [false]), length (events h)).

(** [event.set()] *)
Definition event_set (h : Heap Value) (e : ref) : Heap Value :=
  mkHeap (selectors h) (<[e := true]> (events h)).

(** [event.wait()] followed by [return] *)
Definition event_wait (h : Heap Value) (e : ref) : outcome Value :=
  match events h !! e with
  | Some true => Returned PyNone
  | _ => Waiting (OnEvent e)
  end.

(** [selector.stale()] through a reference.  A reference always names a
    live object in Python; the last case is never reached from stores the
    program builds. *)
Definition stale_at (h : Heap Value) (s : ref) : bool :=
  match selectors h !! s with
  | Some sel => Selector.stale sel
  | None => true
  end.

(** [selector.offer(value)] through a reference. *)
Definition offer_at (h : Heap Value) (s : ref) (value : Value)
  : Heap Value * bool :=
  match selectors h !! s with
  | Some sel =>
      let '(sel', accepted) := Selector.offer sel value in
      (mkHeap (<[s := sel']> (selectors h)) (events h), accepted)
  | None => (h, false)
  end.

(** [selector.get()] through a reference. *)
Definition get_at (h : Heap Value) (s : ref) : outcome Value :=
  match selectors h !! s with
  | Some sel =>
      match Selector.get sel with
      | Some v => Returned v
      | None => Waiting (OnSelector s)
      end
  | None => Waiting (OnSelector s)
  end.
End Store.

(** ** class Channel *)

Module Channel.

(** [_max] is [None] for the [{}] that Python 2 orders above every
    integer, and the given size otherwise. *)
Record t (Value : Type) := Build
  { _max : option Z;
    _pending : list Value;
    _waiting_writers : list (ref * Value);
    _waiting_readers : list ref;
    _stale : nat;
    _max_stale : nat }.
Arguments Build {Value} _ _ _ _ _ _.
Arguments _max {Value} _.
Arguments _pending {Value} _.
Arguments _waiting_writers {Value} _.
Arguments _waiting_readers {Value} _.
Arguments _stale {Value} _.
Arguments _max_stale {Value} _.

Section Methods.
Context {Value : Type} `{PyObject Value}.

(** [__init__] *)
Definition init (size : option Z) : t Value :=
  {| _max := size;
     _pending := [];
     _waiting_writers := [];
     _waiting_readers := [];
     _stale := 0;
     _max_stale := 256 |}.

Definition set_pending (self : t Value) (p : list Value) : t Value :=
  Build (_max self) p (_waiting_writers self) (_waiting_readers self)
        (_stale self) (_max_stale self).

Definition set_waiting_writers (self : t Value) (w : list (ref * Value))
  : t Value :=
  Build (_max self) (_pending self) w (_waiting_readers self)
        (_stale self) (_max_stale self).

Definition set_waiting_readers (self : t Value) (r : list ref) : t Value :=
  Build (_max self) (_pending self) (_waiting_writers self) r
        (_stale self) (_max_stale self).

Definition set_stale (self : t Value) (n : nat) : t Value :=
  Build (_max self) (_pending self) (_waiting_writers self)
        (_waiting_readers self) n (_max_stale self).

(** [len( self._pending ) >= self._max] *)
Definition is_full (self : t Value) : bool :=
  match _max self with
  | None => false
  | Some size => (size <=? Z.of_nat (length (_pending self)))%Z
  end.

(** The [while self._waiting_readers] loop of [put]: pop readers from
    the left until one accepts the value.  Returns the store, the
    readers left in the queue, and whether the value was handed over. *)
Fixpoint hand_over (h : Heap Value) (waiting_readers : list ref)
         (value : Value) : Heap Value * list ref * bool :=
  match waiting_readers with
  | [] => (h, [], false)
  | selector :: rest =>
      let '(h', accepted) := offer_at h selector value in
      if negb accepted then hand_over h' rest value
      else (h', rest, true)
  end.

Definition put (h : Heap Value) (self : t Value) (value : Value)
           (blocking : bool) : Heap Value * t Value * outcome Value :=
  if truthy (_waiting_readers self) && truthy (_pending self) then
    (h, self, Raised ImpossibleError)
  else
    let '(h, readers, handed) :=
      hand_over h (_waiting_readers self) value in
    let self := set_waiting_readers self readers in
    if handed then (h, self, Returned PyNone)
    else if is_full self then
      if blocking then
        let '(h, putEvent) := new_event h in
        let self :=
          set_waiting_writers self
            (_waiting_writers self ++ [(putEvent, value)]) in
        (h, self, event_wait h putEvent)
      else (h, self, Raised Channel_Full)
    else
      (h, set_pending self (_pending self ++ [value]), Returned PyNone).

(** Lines 128 to 135 of [get]. *)
Definition count_stale (h : Heap Value) (self : t Value)
           (selector : option ref) : t Value :=
  match selector with
  | Some _ =>
      let self := set_stale self (S (_stale self)) in
      if _max_stale self <? _stale self then
        set_stale
          (set_waiting_readers self
             (filter (λ wr, stale_at h wr = false) (_waiting_readers self)))
          0
      else self
  | None => self
  end.

(** Lines 192 to 198 of [get], after the lock is released. *)
Definition get_result (h : Heap Value) (internal_selector : option ref)
  : outcome Value :=
  match internal_selector with
  | Some s => get_at h s
  | None => Returned PyNone
  end.

Definition get (h : Heap Value) (self : t Value) (blocking : bool)
           (selector : option ref)
  : Heap Value * t Value * outcome Value :=
  let self := count_stale h self selector in
  let '(h, selector, internal_selector) :=
    match selector with
    | Some s => (h, s, None)
    | None => let '(h, s) := new_selector h in (h, s, Some s)
    end in
  match _pending self with
  | queue_value :: pending =>
      let '(h', accepted) := offer_at h selector queue_value in
      if negb accepted then
        (* appendleft puts the value back *)
        (h', self, Returned PyNone)
      else
        let self := set_pending self pending in
        match _waiting_writers self with
        | (writer_event, writer_value) :: writers =>
            let self := set_waiting_writers self writers in
            let self := set_pending self (_pending self ++ [writer_value]) in
            let h' := event_set h' writer_event in
            (h', self, get_result h' internal_selector)
        | [] => (h', self, get_result h' internal_selector)
        end
  | [] =>
      match _waiting_writers self with
      | (writer_event, writer_value) :: writers =>
          let '(h', accepted) := offer_at h selector writer_value in
          if negb accepted then
            (* appendleft puts the writer back *)
            (h', self, Returned PyNone)
          else
            let self := set_waiting_writers self writers in
            let h' := event_set h' writer_event in
            (h', self, get_result h' internal_selector)
      | [] =>
          if blocking then
            let self :=
              set_waiting_readers self (_waiting_readers self ++ [selector]) in
            (h, self, get_result h internal_selector)
          else (h, self, Raised Channel_Empty)
      end
  end.
End Methods.

End Channel.

(** ** Channels in the store, and channel_select *)

Record World (Value : Type) := mkWorld
  { heap : Heap Value;
    channels : list (Channel.t Value) }.
Arguments mkWorld {Value} _ _.
Arguments heap {Value} _.
Arguments channels {Value} _.

Section Program.
Context {Value : Type} `{PyObject Value}.

(** The store before anything is constructed. *)
Definition empty_world : World Value := mkWorld (mkHeap [] []) [].

(** [Channel( size )] *)
Definition new_channel (w : World Value) (size : option Z)
  : World Value * ref :=
  (mkWorld (heap w) (channels w ++ [Channel.init size]),
   length (channels w)).

(** [channel.put( value, blocking )] on the channel named [channel]. *)
Definition chan_put (w : World Value) (channel : ref) (value : Value)
           (blocking : bool) : World Value * outcome Value :=
  match channels w !! channel with
  | Some self =>
      let '(h, self, r) := Channel.put (heap w) self value blocking in
      (mkWorld h (<[channel := self]> (channels w)), r)
  | None => (w, Raised AttributeError)
  end.

(** [channel.get( blocking, selector )] on the channel named [channel]. *)
Definition chan_get (w : World Value) (channel : ref) (blocking : bool)
           (selector : option ref) : World Value * outcome Value :=
  match channels w !! channel with
  | Some self =>
      let '(h, self, r) := Channel.get (heap w) self blocking selector in
      (mkWorld h (<[channel := self]> (channels w)), r)
  | None => (w, Raised AttributeError)
  end.

(** Lines 253 to 256: the shared selector is handed to every channel in
    turn; what [get] returns is dropped, an exception would leave the
    loop. *)
Fixpoint select_register (w : World Value) (chans : list ref)
         (selector : ref) : World Value * option exn :=
  match chans with
  | [] => (w, None)
  | channel :: rest =>
      let '(w, r) := chan_get w channel true (Some selector) in
      match r with
      | Raised e => (w, Some e)
      | _ => select_register w rest selector
      end
  end.

(** Lines 262 to 269: the first channel whose non-blocking [get] does not
    raise [Empty] decides. *)
Fixpoint select_poll (w : World Value) (chans : list ref)
  : World Value * outcome Value :=
  match chans with
  | [] => (w, Raised Channel_Empty)
  | channel :: rest =>
      let '(w', r) := chan_get w channel false None in
      match r with
      | Raised Channel_Empty => select_poll w' rest
      | _ => (w', r)
      end
  end.

Definition channel_select (w : World Value) (chans : list ref)
           (blocking : bool) : World Value * outcome Value :=
  if negb (truthy chans) then (w, Raised AssertionError)
  else if blocking then
    let '(h, selector) := new_selector (heap w) in
    let '(w, raised) :=
      select_register (mkWorld h (channels w)) chans selector in
    match raised with
    | Some e => (w, Raised e)
    | None => (w, get_at (heap w) selector)
    end
  else select_poll w chans.

(** *** Callers *)

(** [for v in values: selector.offer( v )], keeping every answer. *)
Fixpoint offer_all (self : Selector.t Value) (values : list Value)
  : Selector.t Value * list bool :=
  match values with
  | [] => (self, [])
  | v :: rest =>
      let '(self, ok) := Selector.offer self v in
      let '(self, oks) := offer_all self rest in
      (self, ok :: oks)
  end.

(** [for v in values: channel.put( v, blocking )] on one channel, keeping
    how every call ended. *)
Fixpoint puts (h : Heap Value) (self : Channel.t Value)
         (values : list Value) (blocking : bool)
  : Heap Value * Channel.t Value * list (outcome Value) :=
  match values with
  | [] => (h, self, [])
  | v :: rest =>
      let '(h, self, r) := Channel.put h self v blocking in
      let '(h, self, rs) := puts h self rest blocking in
      (h, self, r :: rs)
  end.

(** [n] times [channel.get()]. *)
Fixpoint gets (h : Heap Value) (self : Channel.t Value) (n : nat)
  : Heap Value * Channel.t Value * list (outcome Value) :=
  match n with
  | 0 => (h, self, [])
  | S n =>
      let '(h, self, r) := Channel.get h self true None in
      let '(h, self, rs) := gets h self n in
      (h, self, r :: rs)
  end.

(** [n] times [channel_select( chans )]. *)
Fixpoint selects (w : World Value) (chans : list ref) (n : nat)
  : World Value * list (outcome Value) :=
  match n with
  | 0 => (w, [])
  | S n =>
      let '(w, r) := channel_select w chans true in
      let '(w, rs) := selects w chans n in
      (w, r :: rs)
  end.

(** Anything a program can do to the store, one locked body at a time. *)
Inductive op :=
| NewChannel (size : option Z)
| NewSelector
| Put (channel : ref) (value : Value) (blocking : bool)
| Get (channel : ref) (blocking : bool) (selector : option ref)
| Offer (selector : ref) (value : Value)
| Select (chans : list ref) (blocking : bool).

Definition step (w : World Value) (o : op) : World Value :=
  match o with
  | NewChannel size => (new_channel w size).1
  | NewSelector => mkWorld (new_selector (heap w)).1 (channels w)
  | Put channel value blocking => (chan_put w channel value blocking).1
  | Get channel blocking selector =>
      (chan_get w channel blocking selector).1
  | Offer selector value =>
      mkWorld (offer_at (heap w) selector value).1 (channels w)
  | Select chans blocking => (channel_select w chans blocking).1
  end.

Definition run (ops : list op) : World Value :=
  fold_left step ops empty_world.
End Program.
Arguments op : clear implicits.

(** ** Invariants of the data model *)

Section Invariants.
Context {Value : Type}.

(** I1: never waiting readers and pending values at once. *)
Definition I1 (self : Channel.t Value) : Prop :=
  Channel._waiting_readers self = [] ∨ Channel._pending self = [].

(** [_pending] holds no more values than the size given to the channel. *)
Definition within_capacity (self : Channel.t Value) : Prop :=
  ∀ size, Channel._max self = Some size →
          (Z.of_nat (length (Channel._pending self)) ≤ Z.max 0 size)%Z.

(** The threshold of the stale counter is the constant of [__init__]. *)
Definition threshold_fixed (self : Channel.t Value) : Prop :=
  Channel._max_stale self = 256.
End Invariants.

Section WorldInvariant.
Context {Value : Type}.

Definition channel_ok (self : Channel.t Value) : Prop :=
  I1 self ∧ within_capacity self ∧ threshold_fixed self.

Definition world_ok (w : World Value) : Prop :=
  Forall channel_ok (channels w).
End WorldInvariant.

Section Contents.
Context {Value : Type}.

(** What a channel has to give at this moment: the head of [_pending],
    or else the value of its first waiting writer. *)
Definition available (self : Channel.t Value) : option Value :=
  match Channel._pending self with
  | v :: _ => Some v
  | [] =>
      match Channel._waiting_writers self with
      | (_, v) :: _ => Some v
      | [] => None
      end
  end.

(** The first value that the channels named in [chans] have to give, in
    the order of the list. *)
Fixpoint first_available (chs : list (Channel.t Value)) (chans : list ref)
  : option Value :=
  match chans with
  | [] => None
  | c :: rest =>
      match chs !! c ≫= available with
      | Some v => Some v
      | None => first_available chs rest
      end
  end.

(** Channel [c] of the store holds exactly the value [o] (nothing, for
    [None]) and no writer waits on it. *)
Definition holding (w : World Value) (c : ref) (o : option Value) : Prop :=
  ∃ self, channels w !! c = Some self
          ∧ Channel._pending self = option_list o
          ∧ Channel._waiting_writers self = [].
End Contents.

Section Parked.
Context {Value : Type}.

(** What line 188 of [get] appends to [_waiting_readers]: the selector,
    when the call is blocking and found neither a value nor a writer. *)
Definition parked (self : Channel.t Value) (blocking : bool) (s : ref)
  : list ref :=
  if blocking && negb (truthy (Channel._pending self))
     && negb (truthy (Channel._waiting_writers self))
  then [s] else [].
End Parked.

Section References.
Context {Value : Type} `{PyObject Value}.

(** The store [h'] has every object of the store [h]. *)
Definition heap_le (h h' : Heap Value) : Prop :=
  length (selectors h) ≤ length (selectors h')
  ∧ length (events h) ≤ length (events h').

(** Every reference in the queues of the channel names an object of the
    store. *)
Definition refs_exist (h : Heap Value) (self : Channel.t Value) : Prop :=
  Forall (λ s, s < length (selectors h)) (Channel._waiting_readers self)
  ∧ Forall (λ ev, ev.1 < length (events h)) (Channel._waiting_writers self).

Definition world_refs_exist (w : World Value) : Prop :=
  Forall (refs_exist (heap w)) (channels w).

(** The selector an operation is given is an object of the store. *)
Definition op_refs_exist (w : World Value) (o : op Value) : Prop :=
  match o with
  | Get _ _ (Some s) | Offer s _ => s < length (selectors (heap w))
  | _ => True
  end.

(** A program that passes on only what it holds. *)
Fixpoint program_refs_exist (w : World Value) (ops : list (op Value))
  : Prop :=
  match ops with
  | [] => True
  | o :: rest => op_refs_exist w o ∧ program_refs_exist (step w o) rest
  end.
End References.

(** ** What a channel holds, and further invariants *)

Section Holdings.
Context {Value : Type} `{PyObject Value}.

(** The values a channel has for its readers, in the order in which [get]
    hands them out: the pending ones, then those of the waiting writers. *)
Definition contents (self : Channel.t Value) : list Value :=
  Channel._pending self ++ (snd <$> Channel._waiting_writers self).

(** Writers wait only on a channel that is full. *)
Definition writers_wait_full (self : Channel.t Value) : Prop :=
  Channel._waiting_writers self ≠ [] → Channel.is_full self = true.

(** The stale counter is at most its threshold. *)
Definition stale_bounded (self : Channel.t Value) : Prop :=
  Channel._stale self ≤ Channel._max_stale self.

(** The event of a selector is set exactly when it has accepted a value. *)
Definition selector_settled (sel : Selector.t Value) : Prop :=
  Selector._event sel = Selector._set sel.

(** The store [h'] is a later state of the store [h]: a selector that has
    accepted a value is as it was, a writer event that is set is still set,
    and the selectors are settled if they were. *)
Definition heap_after (h h' : Heap Value) : Prop :=
  (∀ s sel, selectors h !! s = Some sel → Selector._set sel = true →
            selectors h' !! s = Some sel)
  ∧ (∀ e, events h !! e = Some true → events h' !! e = Some true)
  ∧ (Forall selector_settled (selectors h) →
     Forall selector_settled (selectors h')).

(** The channel has nothing to give, and every reader in its queue is the
    selector [s] or is stale. *)
Definition idle_for (h : Heap Value) (s : ref) (self : Channel.t Value)
  : Prop :=
  Channel._pending self = []
  ∧ Channel._waiting_writers self = []
  ∧ Forall (λ r, r = s ∨ stale_at h r = true) (Channel._waiting_readers self).

(** Channel [c] of the store is idle for the selector [s]. *)
Definition idle_at (w : World Value) (s c : ref) : Prop :=
  ∃ self, channels w !! c = Some self ∧ idle_for (heap w) s self.

(** Channel [c] of the store is idle and has [s] in its reader queue. *)
Definition parked_at (w : World Value) (s c : ref) : Prop :=
  ∃ self, channels w !! c = Some self ∧ idle_for (heap w) s self
          ∧ s ∈ Channel._waiting_readers self.
End Holdings.

(** ** Stores and channels of the concrete runs *)

Definition no_heap : Heap pyval := mkHeap [] [].

(** A channel without size that holds the values [p]. *)
Definition buffer_of (p : list pyval) : Channel.t pyval :=
  Channel.Build None p [] [] 0 256.

Definition two_channels : World pyval :=
  mkWorld no_heap [buffer_of [VInt 1]; buffer_of [VInt 2]].

(** A selector that has accepted the value 9. *)
Definition served : Selector.t pyval := Selector.Build true (VInt 9) true.

(** A channel of size [n] that holds nothing. *)
Definition sized (n : Z) : Channel.t pyval := Channel.init (Some n).

(** A channel of size zero on which a served selector and a new one wait. *)
Definition two_readers : Channel.t pyval :=
  Channel.Build (Some 0%Z) [] [] [0; 1] 0 256.

Definition served_and_new : Heap pyval :=
  mkHeap [served; Selector.init] [].

(** Two channels without size that hold nothing. *)
Definition two_empty_channels : World pyval :=
  mkWorld no_heap [buffer_of []; buffer_of []].

(** * Properties *)

(** ** Selector *)

Section SelectorFacts.
Context {Value : Type} `{PyObject Value}.

Lemma offer_set (self : Selector.t Value) (w : Value) :
  Selector._set self = true → Selector.offer self w = (self, false).
Proof. intros Hs. unfold Selector.offer. now rewrite Hs. Qed.

Lemma offer_all_set (self : Selector.t Value) (ws : list Value) :
  Selector._set self = true →
  offer_all self ws = (self, repeat false (length ws)).
Proof.
  intros Hs. induction ws as [|w ws IH]; simpl; [done|].
  rewrite (offer_set _ _ Hs), IH. done.
Qed.

(** C6. Selector single assignment: the first [offer(v)] on a selector
    that has accepted nothing returns true and records [v]; each later
    [offer(w)] returns false and leaves the selector as it is; [get]
    then returns [v], before and after any number of later offers,
    without waiting. *)
Theorem selector_single_assignment
        (self : Selector.t Value) (v : Value) (ws : list Value) :
  Selector._set self = false →
  let first := Selector.offer self v in
  first.2 = true ∧
  Selector._set first.1 = true ∧
  Selector._value first.1 = v ∧
  (∀ w, Selector.offer first.1 w = (first.1, false)) ∧
  offer_all first.1 ws = (first.1, repeat false (length ws)) ∧
  Selector.get first.1 = Some v ∧
  Selector.get (offer_all first.1 ws).1 = Some v.
Proof.
  intros Hs first.
  assert (Hfirst : first = (Selector.Build true v true, true)).
  { subst first. unfold Selector.offer. now rewrite Hs. }
  rewrite Hfirst. cbn [fst snd Selector._set Selector._value].
  set (s1 := Selector.Build true v true).
  assert (Hset : Selector._set s1 = true) by reflexivity.
  rewrite (offer_all_set s1 ws Hset).
  repeat split.
Qed.
End SelectorFacts.

(** ** The store *)

Section StoreFacts.
Context {Value : Type} `{PyObject Value}.

Lemma heap_eta (h : Heap Value) : mkHeap (selectors h) (events h) = h.
Proof. now destruct h. Qed.

(** An offer is accepted exactly by a selector that is not stale. *)
Lemma offer_at_accepts (h : Heap Value) s v :
  (offer_at h s v).2 = negb (stale_at h s).
Proof.
  unfold offer_at, stale_at, Selector.offer, Selector.stale.
  destruct (selectors h !! s) as [sel|]; [|done].
  now destruct (Selector._set sel).
Qed.

(** A refused offer changes nothing. *)
Lemma offer_at_refused (h h' : Heap Value) s v :
  offer_at h s v = (h', false) → h' = h.
Proof.
  unfold offer_at, Selector.offer.
  destruct (selectors h !! s) as [sel|] eqn:E; [|congruence].
  destruct (Selector._set sel); [|congruence].
  intros [= <-]. rewrite list_insert_id by done. apply heap_eta.
Qed.

Lemma offer_at_stale (h : Heap Value) s v :
  stale_at h s = true → offer_at h s v = (h, false).
Proof.
  intros Hs. pose proof (offer_at_accepts h s v) as Ha.
  rewrite Hs in Ha. destruct (offer_at h s v) as [h' b] eqn:E.
  simpl in Ha. subst b. now rewrite (offer_at_refused _ _ _ _ E).
Qed.

Lemma offer_at_set (h : Heap Value) s sel v :
  selectors h !! s = Some sel → Selector._set sel = true →
  offer_at h s v = (h, false).
Proof.
  intros Hl Hs. apply offer_at_stale. unfold stale_at. now rewrite Hl.
Qed.

(** What an accepted offer does. *)
Lemma offer_at_accepted (h h' : Heap Value) s v :
  offer_at h s v = (h', true) →
  h' = mkHeap (<[s := Selector.Build true v true]> (selectors h)) (events h)
  ∧ s < length (selectors h) ∧ stale_at h s = false.
Proof.
  unfold offer_at, stale_at, Selector.offer, Selector.stale.
  destruct (selectors h !! s) as [sel|] eqn:E; [|congruence].
  apply lookup_lt_Some in E.
  destruct (Selector._set sel); [congruence|]. now intros [= <-].
Qed.

(** A selector made a moment ago accepts. *)
Lemma offer_at_new (h : Heap Value) v :
  offer_at (new_selector h).1 (new_selector h).2 v =
    (mkHeap (selectors h ++ [Selector.Build true v true]) (events h), true).
Proof.
  unfold offer_at, new_selector. cbn [fst snd selectors events].
  rewrite list_lookup_middle by done. cbn.
  rewrite insert_app_r_alt, Nat.sub_diag by done. done.
Qed.

Lemma get_at_snoc (sels : list (Selector.t Value)) ev v :
  get_at (mkHeap (sels ++ [Selector.Build true v true]) ev) (length sels)
  = Returned v.
Proof.
  unfold get_at. cbn [selectors]. now rewrite list_lookup_middle.
Qed.

Lemma get_at_event_set (h : Heap Value) e s :
  get_at (event_set h e) s = get_at h s.
Proof. reflexivity. Qed.

Lemma get_at_new (h : Heap Value) :
  get_at (new_selector h).1 (new_selector h).2
  = Waiting (OnSelector (length (selectors h))).
Proof.
  unfold get_at, new_selector. cbn [fst snd selectors].
  now rewrite list_lookup_middle.
Qed.
End StoreFacts.

(** ** Channel: what one call does *)

Section ChannelFacts.
Context {Value : Type} `{PyObject Value}.
Implicit Types (h : Heap Value) (self : Channel.t Value).

(** When the hand-over loop of [put] gives the value to nobody, every
    reader it met was stale, the queue is empty and the store is as it
    was. *)
Lemma hand_over_nobody h readers v h' readers' :
  Channel.hand_over h readers v = (h', readers', false) →
  h' = h ∧ readers' = [] ∧ Forall (λ s, stale_at h s = true) readers.
Proof.
  revert h. induction readers as [|s rest IH]; intros h; simpl.
  - intros [= <- <-]. auto.
  - destruct (offer_at h s v) as [h1 b] eqn:E. destruct b; simpl; [done|].
    pose proof (offer_at_accepts h s v) as Ha. rewrite E in Ha. simpl in Ha.
    apply offer_at_refused in E. subst h1.
    intros (-> & -> & HF)%IH. split; [done|]. split; [done|].
    constructor; [|done]. now destruct (stale_at h s).
Qed.

Lemma hand_over_nil h v : Channel.hand_over h [] v = (h, [], false).
Proof. reflexivity. Qed.

Lemma get_nonblocking_cases h self :
  let res := Channel.get h self false None in
  (res.2 = Raised Channel_Empty ↔
     Channel._pending self = [] ∧ Channel._waiting_writers self = []) ∧
  (res.2 = Raised Channel_Empty → res.1.2 = self) ∧
  (∀ v p, Channel._pending self = v :: p → res.2 = Returned v) ∧
  (∀ e v ws, Channel._pending self = [] →
             Channel._waiting_writers self = (e, v) :: ws →
             res.2 = Returned v).
Proof.
  unfold Channel.get. cbn [Channel.count_stale].
  destruct (new_selector h) as [h1 s] eqn:Hn.
  assert (Ho : ∀ v, offer_at h1 s v =
    (mkHeap (selectors h ++ [Selector.Build true v true]) (events h), true)).
  { intros v. pose proof (offer_at_new h v) as E. now rewrite Hn in E. }
  assert (Hs : s = length (selectors h)) by now inversion Hn.
  destruct (Channel._pending self) as [|q p] eqn:Hp;
    destruct (Channel._waiting_writers self) as [|[e wv] ws] eqn:Hw;
    cbn zeta; rewrite ?Ho; cbn [negb];
    rewrite ?Hw; cbn [Channel.get_result fst snd Channel._waiting_writers Channel.set_pending];
    rewrite ?Hw, ?get_at_event_set, ?Hs, ?get_at_snoc.
  all: cbn [fst snd]; repeat split; intros; intuition congruence.
Qed.

(** C5. A non-blocking [get] without selector raises [Empty] exactly when
    [_pending] and [_waiting_writers] are both empty, and then every field
    of the channel is as before; when something is there it returns it:
    the head of [_pending], or else the value of the first waiting
    writer. *)
Theorem get_nonblocking_empty h self :
  let res := Channel.get h self false None in
  (res.2 = Raised Channel_Empty ↔
     Channel._pending self = [] ∧ Channel._waiting_writers self = []) ∧
  (res.2 = Raised Channel_Empty → res.1.2 = self) ∧
  (∀ v p, Channel._pending self = v :: p → res.2 = Returned v) ∧
  (∀ e v ws, Channel._pending self = [] →
             Channel._waiting_writers self = (e, v) :: ws →
             res.2 = Returned v).
Proof. apply get_nonblocking_cases. Qed.

Lemma count_stale_pending h self selector :
  Channel._pending (Channel.count_stale h self selector)
  = Channel._pending self.
Proof.
  unfold Channel.count_stale. destruct selector; [|done].
  now destruct (_ <? _).
Qed.

Lemma count_stale_waiting_writers h self selector :
  Channel._waiting_writers (Channel.count_stale h self selector)
  = Channel._waiting_writers self.
Proof.
  unfold Channel.count_stale. destruct selector; [|done].
  now destruct (_ <? _).
Qed.

Lemma count_stale_max h self selector :
  Channel._max (Channel.count_stale h self selector) = Channel._max self.
Proof.
  unfold Channel.count_stale. destruct selector; [|done].
  now destruct (_ <? _).
Qed.

Lemma count_stale_max_stale h self selector :
  Channel._max_stale (Channel.count_stale h self selector)
  = Channel._max_stale self.
Proof.
  unfold Channel.count_stale. destruct selector; [|done].
  now destruct (_ <? _).
Qed.

(** C7. A [get] with a selector that is already set gives its caller
    nothing and takes nothing: the store is as before (no selector
    changed, no writer event set), [_pending] and [_waiting_writers] are as
    before, and the call returns [None] whenever a value or a writer was
    there to be offered (or the call is a blocking one). *)
Theorem get_refused_pushes_back h self blocking s sel :
  selectors h !! s = Some sel →
  Selector._set sel = true →
  let res := Channel.get h self blocking (Some s) in
  res.1.1 = h ∧
  Channel._pending res.1.2 = Channel._pending self ∧
  Channel._waiting_writers res.1.2 = Channel._waiting_writers self ∧
  (Channel._pending self ≠ [] ∨ Channel._waiting_writers self ≠ []
   ∨ blocking = true → res.2 = Returned PyNone).
Proof.
  intros Hl Hs. unfold Channel.get.
  pose proof (count_stale_pending h self (Some s)) as Hp.
  pose proof (count_stale_waiting_writers h self (Some s)) as Hw.
  set (self1 := Channel.count_stale h self (Some s)) in *.
  assert (Ho : ∀ v, offer_at h s v = (h, false))
    by (intros v; now apply (offer_at_set h s sel)).
  destruct (Channel._pending self1) as [|q p] eqn:Ep;
    destruct (Channel._waiting_writers self1) as [|[e wv] ws] eqn:Ew;
    rewrite ?Ho; cbn [negb]; try destruct blocking;
    cbn [fst snd Channel.get_result Channel._pending
         Channel._waiting_writers Channel.set_waiting_readers];
    rewrite <- ?Hp, <- ?Hw, ?Ep, ?Ew;
    repeat split; intros; intuition congruence.
Qed.

(** The reader queue and the two counters after a [get], from the channel
    [self1] that the stale accounting leaves. *)
Lemma get_after_count h self blocking selector :
  let self1 := Channel.count_stale h self selector in
  let s := match selector with
           | Some s => s
           | None => length (selectors h)
           end in
  let self' := (Channel.get h self blocking selector).1.2 in
  Channel._waiting_readers self'
  = Channel._waiting_readers self1 ++ parked self blocking s ∧
  Channel._stale self' = Channel._stale self1 ∧
  Channel._max_stale self' = Channel._max_stale self ∧
  Channel._max self' = Channel._max self.
Proof.
  cbn zeta. unfold Channel.get, parked.
  rewrite <- (count_stale_pending h self selector).
  rewrite <- (count_stale_waiting_writers h self selector).
  rewrite <- (count_stale_max_stale h self selector).
  rewrite <- (count_stale_max h self selector).
  set (self1 := Channel.count_stale h self selector).
  set (hs := match selector with
             | Some s => (h, s, None)
             | None => let '(h0, s) := new_selector h in (h0, s, Some s)
             end).
  assert (Es : hs.1.2 = match selector with
                        | Some s => s
                        | None => length (selectors h)
                        end) by (subst hs; now destruct selector).
  destruct hs as [[h1 s1] internal]. cbn [fst snd] in Es. subst s1.
  destruct (Channel._pending self1) as [|q p];
    destruct (Channel._waiting_writers self1) as [|[e wv] ws] eqn:Ew;
    try destruct (offer_at h1 _ _) as [h2 []];
    destruct blocking; cbn; rewrite ?Ew; cbn; rewrite ?app_nil_r; done.
Qed.

(** C8. Stale compaction.  A [get] with an external selector adds one to
    [_stale]; when the new count is above 256, [_waiting_readers] becomes
    its entries that are not stale, in their order, and [_stale] becomes
    0; otherwise [_waiting_readers] is kept whole and [_stale] keeps the
    new count.  A [get] without external selector keeps both.  In every
    case the selector of the call is appended afterwards when the call
    parks it (see [parked]), and the threshold stays 256. *)
Theorem get_stale_compaction h self blocking selector :
  Channel._max_stale self = 256 →
  let self' := (Channel.get h self blocking selector).1.2 in
  Channel._max_stale self' = 256 ∧
  (∀ s, selector = Some s → 256 < S (Channel._stale self) →
        Channel._waiting_readers self'
        = filter (λ wr, stale_at h wr = false) (Channel._waiting_readers self)
          ++ parked self blocking s
        ∧ Channel._stale self' = 0) ∧
  (∀ s, selector = Some s → S (Channel._stale self) ≤ 256 →
        Channel._waiting_readers self'
        = Channel._waiting_readers self ++ parked self blocking s
        ∧ Channel._stale self' = S (Channel._stale self)) ∧
  (selector = None →
   Channel._waiting_readers self'
   = Channel._waiting_readers self
     ++ parked self blocking (length (selectors h))
   ∧ Channel._stale self' = Channel._stale self).
Proof.
  intros Hmax. cbn zeta.
  destruct (get_after_count h self blocking selector)
    as (Hr & Hc & Hm & _).
  rewrite Hr, Hc, Hm. split; [done|].
  unfold Channel.count_stale.
  cbn [Channel.set_stale Channel._max_stale Channel._stale].
  rewrite Hmax.
  repeat split; intros; subst selector;
    try (destruct (Nat.ltb_spec 256 (S (Channel._stale self))); [|lia]);
    try (destruct (Nat.ltb_spec 256 (S (Channel._stale self))); [lia|]);
    done.
Qed.

Lemma set_waiting_readers_same self :
  Channel.set_waiting_readers self (Channel._waiting_readers self) = self.
Proof. now destruct self. Qed.

(** C10. A non-blocking [put] that raises [Full] stores nothing and keeps
    [_pending], [_waiting_writers] and the store, but it has emptied
    [_waiting_readers]: every reader that was queued was stale and has
    been popped.  So the channel after a [Full] can differ from the
    channel before: a zero-size channel with one stale reader does. *)
Theorem put_full_drops_stale_readers :
  (∀ h self value,
     let res := Channel.put h self value false in
     res.2 = Raised Channel_Full →
     res.1.1 = h ∧
     Channel._pending res.1.2 = Channel._pending self ∧
     Channel._waiting_writers res.1.2 = Channel._waiting_writers self ∧
     Channel._waiting_readers res.1.2 = [] ∧
     Forall (λ s, stale_at h s = true) (Channel._waiting_readers self)) ∧
  (∃ h self value,
     let res := Channel.put h self value false in
     res.2 = Raised Channel_Full ∧ res.1.2 ≠ self).
Proof.
  split.
  - intros h self value. cbn zeta. unfold Channel.put.
    destruct (truthy _ && truthy _); [discriminate|].
    destruct (Channel.hand_over h _ value) as [[h1 r1] handed] eqn:E.
    destruct handed; [discriminate|].
    apply hand_over_nobody in E as (-> & -> & HF).
    destruct (Channel.is_full _); [|discriminate].
    intros _. cbn. auto.
  - exists (mkHeap [Selector.Build true PyNone true] []),
      (Channel.Build (Some 0%Z) [] [] [0] 0 256), PyNone.
    cbn. split; [done|discriminate].
Qed.

(** *** What [put] does to a channel without waiting readers *)

Lemma put_no_readers h self v blocking :
  Channel._waiting_readers self = [] →
  Channel.put h self v blocking =
    if Channel.is_full self then
      if blocking then
        (mkHeap (selectors h) (events h ++ [false]),
         Channel.set_waiting_writers self
           (Channel._waiting_writers self ++ [(length (events h), v)]),
         Waiting (OnEvent (length (events h))))
      else (h, self, Raised Channel_Full)
    else (h, Channel.set_pending self (Channel._pending self ++ [v]),
          Returned PyNone).
Proof.
  intros Hr. unfold Channel.put. rewrite Hr. cbn [truthy andb].
  rewrite hand_over_nil, <- Hr, set_waiting_readers_same.
  destruct (Channel.is_full self); [|done].
  destruct blocking; [|done].
  unfold new_event, event_wait. cbn [selectors events].
  now rewrite list_lookup_middle.
Qed.

Lemma is_full_spec self (K : nat) :
  Channel._max self = Some (Z.of_nat K) →
  Channel.is_full self = true ↔ K ≤ length (Channel._pending self).
Proof.
  intros Hm. unfold Channel.is_full. rewrite Hm.
  rewrite Z.leb_le. lia.
Qed.

(** *** The invariants are kept by every call *)

Lemma count_stale_I1 h self selector :
  I1 self → I1 (Channel.count_stale h self selector).
Proof.
  unfold I1, Channel.count_stale. destruct selector; [|done].
  destruct (_ <? _); cbn; [|done].
  intros [->| ->]; auto.
Qed.

Lemma put_I1 h self v blocking :
  I1 self → I1 (Channel.put h self v blocking).1.2.
Proof.
  intros HI. unfold Channel.put.
  destruct (truthy _ && truthy _); [done|].
  destruct (Channel.hand_over h _ v) as [[h1 r1] handed] eqn:E.
  destruct handed.
  - destruct HI as [Hr|Hp]; [|now right].
    rewrite Hr in E. discriminate.
  - apply hand_over_nobody in E as (-> & -> & _).
    destruct (Channel.is_full _); [destruct blocking|]; now left.
Qed.

Lemma get_I1 h self blocking selector :
  I1 self → I1 (Channel.get h self blocking selector).1.2.
Proof.
  intros HI%(count_stale_I1 h self selector). unfold Channel.get.
  set (self1 := Channel.count_stale h self selector) in *.
  destruct (match selector with
            | Some s => (h, s, None)
            | None => let '(h0, s) := new_selector h in (h0, s, Some s)
            end) as [[h1 s1] internal].
  unfold I1 in *.
  destruct (Channel._pending self1) as [|q p] eqn:Ep;
    destruct (Channel._waiting_writers self1) as [|[e wv] ws] eqn:Ew;
    try destruct (offer_at h1 _ _) as [h2 []];
    try destruct blocking; cbn; rewrite ?Ew, ?Ep; cbn;
    destruct HI; auto; congruence.
Qed.

Lemma put_not_impossible h self v blocking :
  I1 self → (Channel.put h self v blocking).2 ≠ Raised ImpossibleError.
Proof.
  intros HI. unfold Channel.put.
  replace (truthy (Channel._waiting_readers self)
           && truthy (Channel._pending self)) with false
    by (now destruct HI as [-> | ->]; [|rewrite andb_false_r]).
  destruct (Channel.hand_over h _ v) as [[h1 r1] handed].
  destruct handed; [done|].
  destruct (Channel.is_full _); [|done].
  destruct blocking; [|done].
  unfold new_event, event_wait. cbn. now destruct (_ !! _) as [[]|].
Qed.

Lemma put_max h self v blocking :
  Channel._max (Channel.put h self v blocking).1.2 = Channel._max self.
Proof.
  unfold Channel.put.
  destruct (truthy _ && truthy _); [done|].
  destruct (Channel.hand_over h _ v) as [[h1 r1] handed].
  destruct handed; [done|].
  destruct (Channel.is_full _); [destruct blocking|]; done.
Qed.

Lemma put_max_stale h self v blocking :
  Channel._max_stale (Channel.put h self v blocking).1.2
  = Channel._max_stale self.
Proof.
  unfold Channel.put.
  destruct (truthy _ && truthy _); [done|].
  destruct (Channel.hand_over h _ v) as [[h1 r1] handed].
  destruct handed; [done|].
  destruct (Channel.is_full _); [destruct blocking|]; done.
Qed.

Lemma put_within_capacity h self v blocking :
  within_capacity self →
  within_capacity (Channel.put h self v blocking).1.2.
Proof.
  intros HC size. rewrite put_max. intros Hm. specialize (HC size Hm).
  unfold Channel.put.
  destruct (truthy _ && truthy _); [done|].
  destruct (Channel.hand_over h _ v) as [[h1 r1] handed].
  destruct handed; [done|].
  unfold Channel.is_full. cbn [Channel.set_waiting_readers Channel._max
                               Channel._pending].
  rewrite Hm. destruct (Z.leb_spec size (Z.of_nat (length (Channel._pending self)))).
  - now destruct blocking.
  - cbn. rewrite length_app. cbn. lia.
Qed.

Lemma get_max h self blocking selector :
  Channel._max (Channel.get h self blocking selector).1.2
  = Channel._max self.
Proof. apply get_after_count. Qed.

Lemma get_max_stale h self blocking selector :
  Channel._max_stale (Channel.get h self blocking selector).1.2
  = Channel._max_stale self.
Proof. apply get_after_count. Qed.

Lemma get_pending_length h self blocking selector :
  length (Channel._pending (Channel.get h self blocking selector).1.2)
  ≤ length (Channel._pending self).
Proof.
  rewrite <- (count_stale_pending h self selector). unfold Channel.get.
  set (self1 := Channel.count_stale h self selector) in *.
  destruct (match selector with
            | Some s => (h, s, None)
            | None => let '(h0, s) := new_selector h in (h0, s, Some s)
            end) as [[h1 s1] internal].
  destruct (Channel._pending self1) as [|q p] eqn:Ep;
    destruct (Channel._waiting_writers self1) as [|[e wv] ws] eqn:Ew;
    try destruct (offer_at h1 _ _) as [h2 []];
    try destruct blocking; cbn; rewrite ?Ew, ?Ep; cbn;
    rewrite ?length_app; cbn; lia.
Qed.

Lemma get_within_capacity h self blocking selector :
  within_capacity self →
  within_capacity (Channel.get h self blocking selector).1.2.
Proof.
  intros HC size. rewrite get_max. intros Hm. specialize (HC size Hm).
  pose proof (get_pending_length h self blocking selector). lia.
Qed.

(** *** A [get] without selector that finds a value *)

Lemma get_internal_pending h self blocking q p :
  Channel._pending self = q :: p →
  Channel.get h self blocking None =
    let h' := mkHeap (selectors h ++ [Selector.Build true q true])
                     (events h) in
    match Channel._waiting_writers self with
    | [] => (h', Channel.set_pending self p, Returned q)
    | (e, wv) :: ws =>
        (event_set h' e,
         Channel.set_pending
           (Channel.set_waiting_writers (Channel.set_pending self p) ws)
           (p ++ [wv]),
         Returned q)
    end.
Proof.
  intros Hp. unfold Channel.get. cbn [Channel.count_stale].
  destruct (new_selector h) as [h1 s] eqn:Hn.
  pose proof (offer_at_new h q) as Ho. rewrite Hn in Ho. cbn [fst snd] in Ho.
  assert (Hs : s = length (selectors h)) by now inversion Hn.
  rewrite Hp, Ho. cbn [negb Channel.set_pending Channel._waiting_writers].
  destruct (Channel._waiting_writers self) as [|[e wv] ws];
    cbn [Channel.get_result]; rewrite ?get_at_event_set, Hs, get_at_snoc;
    done.
Qed.

(** Non-blocking or not, [put] appends while there is room. *)
Lemma puts_room h self vs blocking :
  Channel._waiting_readers self = [] →
  (∀ size, Channel._max self = Some size →
           (Z.of_nat (length (Channel._pending self) + length vs) ≤ size)%Z) →
  puts h self vs blocking =
    (h, Channel.set_pending self (Channel._pending self ++ vs),
     map (λ _, Returned PyNone) vs).
Proof.
  revert self. induction vs as [|v vs IH]; intros self Hr Hroom.
  - cbn. rewrite app_nil_r. now destruct self.
  - cbn [puts]. rewrite put_no_readers by done.
    assert (Hf : Channel.is_full self = false).
    { unfold Channel.is_full.
      destruct (Channel._max self) as [size|] eqn:Hm; [|done].
      specialize (Hroom size eq_refl). cbn [length] in Hroom.
      apply Z.leb_gt. lia. }
    rewrite Hf, IH.
    + cbn. now rewrite <- app_assoc.
    + done.
    + cbn. intros size Hm. specialize (Hroom size Hm).
      rewrite length_app. cbn [length] in *. lia.
Qed.

(** [n] calls of [get] hand out the first [n] pending values in order. *)
Lemma gets_prefix h self q r :
  Channel._pending self = q ++ r →
  (gets h self (length q)).2 = map Returned q.
Proof.
  revert h self r. induction q as [|x q IH]; intros h self r Hp; [done|].
  cbn [length gets].
  rewrite (get_internal_pending h self true x (q ++ r)) by done.
  cbn zeta.
  destruct (Channel._waiting_writers self) as [|[e wv] ws].
  - specialize (IH (mkHeap (selectors h ++ [Selector.Build true x true])
                           (events h))
                   (Channel.set_pending self (q ++ r)) r eq_refl).
    destruct (gets _ _ _) as [[h2 c2] rs]. cbn in *. now rewrite IH.
  - match goal with
    | |- context [gets ?h2 ?c2 _] =>
        specialize (IH h2 c2 (r ++ [wv]));
        destruct (gets h2 c2 (length q)) as [[h3 c3] rs]
    end.
    cbn in *. rewrite IH; [done|]. now rewrite <- app_assoc.
Qed.

(** C3. FIFO round trip.  On a channel without size and without waiting
    readers, [put(v1)] .. [put(vN)] all return and append [v1..vN] to
    [_pending]; the following calls of [get] return the pending values in
    order, the old ones first and then [v1..vN]; so from an empty buffer
    the [N] calls of [get] return exactly [v1..vN]. *)
Theorem fifo_round_trip h self vs blocking :
  Channel._max self = None →
  Channel._waiting_readers self = [] →
  let after := puts h self vs blocking in
  after.2 = map (λ _, Returned PyNone) vs ∧
  Channel._pending after.1.2 = Channel._pending self ++ vs ∧
  (gets after.1.1 after.1.2 (length (Channel._pending self ++ vs))).2
  = map Returned (Channel._pending self ++ vs) ∧
  (Channel._pending self = [] →
   (gets after.1.1 after.1.2 (length vs)).2 = map Returned vs).
Proof.
  intros Hm Hr after. subst after.
  rewrite puts_room by (done || congruence).
  cbn [fst snd Channel.set_pending Channel._pending].
  split; [done|]. split; [done|]. split.
  - apply (gets_prefix _ _ _ []). cbn. now rewrite app_nil_r.
  - intros Hp. rewrite Hp. cbn [app].
    apply (gets_prefix _ _ _ []). cbn. now rewrite app_nil_r.
Qed.

(** *** Capacity *)

Lemma put_nonblocking_bounded h self (K : nat) v :
  Channel._max self = Some (Z.of_nat K) →
  Channel._waiting_readers self = [] →
  length (Channel._pending self) ≤ K →
  (length (Channel._pending self) < K ↔
     Channel.put h self v false =
       (h, Channel.set_pending self (Channel._pending self ++ [v]),
        Returned PyNone)) ∧
  (length (Channel._pending self) = K ↔
     Channel.put h self v false = (h, self, Raised Channel_Full)).
Proof.
  intros Hm Hr Hle. rewrite put_no_readers by done.
  pose proof (is_full_spec self K Hm) as Hf.
  destruct (Channel.is_full self).
  - assert (K ≤ length (Channel._pending self)) by now apply Hf.
    split; split; intros; try done; try lia.
  - assert (¬ K ≤ length (Channel._pending self))
      by (intros HK; apply Hf in HK; done).
    split; split; intros; try done; try lia.
Qed.

(** A blocking [get] without selector that finds nothing parks a new
    selector in the reader queue. *)
Lemma get_internal_park h self :
  Channel._pending self = [] →
  Channel._waiting_writers self = [] →
  Channel.get h self true None =
    ((new_selector h).1,
     Channel.set_waiting_readers self
       (Channel._waiting_readers self ++ [length (selectors h)]),
     Waiting (OnSelector (length (selectors h)))).
Proof.
  intros Hp Hw. unfold Channel.get. cbn [Channel.count_stale].
  pose proof (get_at_new h) as Hg.
  destruct (new_selector h) as [h1 s] eqn:Hn.
  assert (Hs : s = length (selectors h)) by now inversion Hn.
  rewrite Hp, Hw. cbn [Channel.get_result fst snd] in *. now rewrite Hg, Hs.
Qed.

(** From empty: [K] non-blocking puts go in, the next is refused with
    [Full], and after one [get] a non-blocking put goes through again. *)
Lemma capacity_cycle h self (K : nat) vs v' v'' :
  Channel._max self = Some (Z.of_nat K) →
  Channel._waiting_readers self = [] →
  Channel._pending self = [] →
  Channel._waiting_writers self = [] →
  length vs = K →
  let s1 := puts h self vs false in
  let s2 := Channel.put s1.1.1 s1.1.2 v' false in
  let s3 := Channel.get s2.1.1 s2.1.2 true None in
  let s4 := Channel.put s3.1.1 s3.1.2 v'' false in
  s1.2 = map (λ _, Returned PyNone) vs ∧
  Channel._pending s1.1.2 = vs ∧
  s2.2 = Raised Channel_Full ∧
  s2.1 = s1.1 ∧
  (∀ x xs, vs = x :: xs →
           s3.2 = Returned x ∧ Channel._pending s4.1.2 = xs ++ [v'']) ∧
  s4.2 = Returned PyNone.
Proof.
  intros Hm Hr Hp Hw Hlen. cbn zeta.
  rewrite puts_room; [|done|]; cycle 1.
  { intros size Hsz. rewrite Hp. cbn. rewrite Hm in Hsz.
    injection Hsz as <-. lia. }
  rewrite Hp. cbn [fst snd app].
  set (self1 := Channel.set_pending self vs).
  assert (Hm1 : Channel._max self1 = Some (Z.of_nat K)) by done.
  assert (Hr1 : Channel._waiting_readers self1 = []) by done.
  assert (Hw1 : Channel._waiting_writers self1 = []) by done.
  assert (Hp1 : Channel._pending self1 = vs) by done.
  clearbody self1.
  rewrite (put_no_readers h self1 v' false Hr1).
  assert (Hf : Channel.is_full self1 = true)
    by (apply (is_full_spec self1 K Hm1); rewrite Hp1; lia).
  rewrite Hf. cbn [fst snd].
  split; [done|]. split; [done|]. split; [done|]. split; [done|].
  destruct vs as [|x xs].
  - split; [done|].
    rewrite get_internal_park by done. cbn [fst snd].
    unfold Channel.put.
    cbn [Channel.set_waiting_readers Channel._waiting_readers
         Channel._pending].
    rewrite Hp1, Hr1. cbn [app truthy andb Channel.hand_over].
    pose proof (offer_at_new h v'') as Ho.
    unfold new_selector in *. cbn [fst snd] in *. now rewrite Ho.
  - rewrite (get_internal_pending h self1 true x xs) by done.
    rewrite Hw1. cbn [fst snd].
    set (self2 := Channel.set_pending self1 xs).
    rewrite put_no_readers by done.
    assert (Hf2 : Channel.is_full self2 = false).
    { destruct (Channel.is_full self2) eqn:E; [|done].
      apply (is_full_spec self2 K) in E; [|done].
      cbn in E, Hlen. lia. }
    rewrite Hf2. cbn [fst snd].
    split; [|done]. intros x' xs' [= <- <-]. done.
Qed.
End ChannelFacts.

(** ** Every store a program can build *)

Section WorldFacts.
Context {Value : Type} `{PyObject Value}.
Implicit Types (w : World Value) (self : Channel.t Value).

Lemma put_ok (h : Heap Value) self v blocking :
  channel_ok self → channel_ok (Channel.put h self v blocking).1.2.
Proof.
  intros (HI & HC & HT). split; [|split].
  - now apply put_I1.
  - now apply put_within_capacity.
  - unfold threshold_fixed. now rewrite put_max_stale.
Qed.

Lemma get_ok (h : Heap Value) self blocking selector :
  channel_ok self → channel_ok (Channel.get h self blocking selector).1.2.
Proof.
  intros (HI & HC & HT). split; [|split].
  - now apply get_I1.
  - now apply get_within_capacity.
  - unfold threshold_fixed. now rewrite get_max_stale.
Qed.

Lemma chan_put_ok w c v blocking :
  world_ok w → world_ok (chan_put w c v blocking).1.
Proof.
  intros Hw. unfold chan_put.
  destruct (channels w !! c) as [self|] eqn:E; [|done].
  pose proof (put_ok (heap w) self v blocking) as Hok.
  destruct (Channel.put _ _ _ _) as [[h1 self1] r]. cbn in *.
  apply Forall_insert; [done|]. apply Hok.
  eapply Forall_lookup_1; eauto.
Qed.

Lemma chan_get_ok w c blocking selector :
  world_ok w → world_ok (chan_get w c blocking selector).1.
Proof.
  intros Hw. unfold chan_get.
  destruct (channels w !! c) as [self|] eqn:E; [|done].
  pose proof (get_ok (heap w) self blocking selector) as Hok.
  destruct (Channel.get _ _ _ _) as [[h1 self1] r]. cbn in *.
  apply Forall_insert; [done|]. apply Hok.
  eapply Forall_lookup_1; eauto.
Qed.

Lemma select_register_ok w chans selector :
  world_ok w → world_ok (select_register w chans selector).1.
Proof.
  revert w. induction chans as [|c chans IH]; intros w Hw; [done|].
  cbn [select_register].
  pose proof (chan_get_ok w c true (Some selector) Hw) as Hok.
  destruct (chan_get _ _ _ _) as [w1 r]. cbn in Hok.
  destruct r; auto.
Qed.

Lemma select_poll_ok w chans :
  world_ok w → world_ok (select_poll w chans).1.
Proof.
  revert w. induction chans as [|c chans IH]; intros w Hw; [done|].
  cbn [select_poll].
  pose proof (chan_get_ok w c false None Hw) as Hok.
  destruct (chan_get _ _ _ _) as [w1 r]. cbn in Hok.
  destruct r as [|[]|]; auto.
Qed.

Lemma channel_select_ok w chans blocking :
  world_ok w → world_ok (channel_select w chans blocking).1.
Proof.
  intros Hw. unfold channel_select.
  destruct (negb (truthy chans)); [done|].
  destruct blocking; [|now apply select_poll_ok].
  cbn [new_selector].
  match goal with
  | |- context [select_register ?w1 chans ?s] =>
      pose proof (select_register_ok w1 chans s Hw) as Hok;
      destruct (select_register w1 chans s) as [w2 [e|]]
  end; done.
Qed.

Lemma init_ok size : channel_ok (Channel.init (Value := Value) size).
Proof.
  split; [now left|]. split; [|done].
  intros sz _. cbn. lia.
Qed.

Lemma step_ok w o : world_ok w → world_ok (step w o).
Proof.
  intros Hw. destruct o; cbn [step].
  - unfold world_ok. cbn. apply Forall_app. split; [done|].
    constructor; [apply init_ok|done].
  - done.
  - now apply chan_put_ok.
  - now apply chan_get_ok.
  - done.
  - now apply channel_select_ok.
Qed.

Lemma run_from_ok ops w : world_ok w → world_ok (fold_left step ops w).
Proof.
  revert w. induction ops as [|o ops IH]; intros w Hw; [done|].
  cbn. apply IH. now apply step_ok.
Qed.

Lemma run_ok ops : world_ok (run ops).
Proof. apply run_from_ok. constructor. Qed.

(** C2. Invariant I1.  In every store reached from nothing by any
    sequence of constructions, [put]s, [get]s (with or without selector,
    the same selector on as many channels as one likes), offers and
    [channel_select]s, no channel has both waiting readers and pending
    values; and whatever [put] comes next, it does not raise the
    exception of the invariant check. *)
Theorem invariant_I1_reachable (ops : list (op Value)) :
  let w := run ops in
  (∀ c self, channels w !! c = Some self →
             ¬ (Channel._waiting_readers self ≠ []
                ∧ Channel._pending self ≠ [])) ∧
  (∀ c v blocking, (chan_put w c v blocking).2 ≠ Raised ImpossibleError).
Proof.
  cbn zeta. pose proof (run_ok ops) as Hw. split.
  - intros c self Hc [Hr Hp].
    destruct (Forall_lookup_1 _ _ _ _ Hw Hc) as ([?|?] & _); done.
  - intros c v blocking. unfold chan_put.
    destruct (channels (run ops) !! c) as [self|] eqn:Hc; [|done].
    destruct (Forall_lookup_1 _ _ _ _ Hw Hc) as (HI & _).
    pose proof (put_not_impossible (heap (run ops)) self v blocking HI).
    now destruct (Channel.put _ _ _ _) as [[h1 self1] r].
Qed.

(** C4. Capacity bound and [Full].  For every channel that a program can
    build, of size [K] and without waiting readers: a non-blocking [put]
    appends to [_pending] and returns exactly when fewer than [K] values
    are pending, and raises [Full], changing nothing, exactly when [K]
    are.  Hence, from empty, [K] non-blocking puts go in, one more raises
    [Full], and after one [get] (which returns the first value put) a
    non-blocking put returns again. *)
Theorem capacity_bound (ops : list (op Value)) c self (K : nat) v :
  channels (run ops) !! c = Some self →
  Channel._max self = Some (Z.of_nat K) →
  Channel._waiting_readers self = [] →
  let h := heap (run ops) in
  (length (Channel._pending self) < K ↔
     Channel.put h self v false =
       (h, Channel.set_pending self (Channel._pending self ++ [v]),
        Returned PyNone)) ∧
  (length (Channel._pending self) = K ↔
     Channel.put h self v false = (h, self, Raised Channel_Full)) ∧
  (Channel._pending self = [] →
   Channel._waiting_writers self = [] →
   ∀ vs v' v'', length vs = K →
     let s1 := puts h self vs false in
     let s2 := Channel.put s1.1.1 s1.1.2 v' false in
     let s3 := Channel.get s2.1.1 s2.1.2 true None in
     let s4 := Channel.put s3.1.1 s3.1.2 v'' false in
     s1.2 = map (λ _, Returned PyNone) vs ∧
     Channel._pending s1.1.2 = vs ∧
     s2.2 = Raised Channel_Full ∧
     s2.1 = s1.1 ∧
     (∀ x xs, vs = x :: xs →
              s3.2 = Returned x ∧ Channel._pending s4.1.2 = xs ++ [v'']) ∧
     s4.2 = Returned PyNone).
Proof.
  intros Hc Hm Hr h.
  destruct (Forall_lookup_1 _ _ _ _ (run_ok ops) Hc) as (_ & HC & _).
  specialize (HC _ Hm).
  assert (Hle : length (Channel._pending self) ≤ K) by lia.
  destruct (put_nonblocking_bounded h self K v Hm Hr Hle) as [H1 H2].
  split; [done|]. split; [done|].
  intros Hp Hw vs v' v'' Hlen. now apply (capacity_cycle h self K).
Qed.

(** *** Non-blocking select *)

Lemma get_nonblocking_available (h : Heap Value) self :
  (Channel.get h self false None).2 =
    match available self with
    | Some v => Returned v
    | None => Raised Channel_Empty
    end
  ∧ (available self = None → (Channel.get h self false None).1.2 = self)
  ∧ (available self = None ↔
       Channel._pending self = [] ∧ Channel._waiting_writers self = []).
Proof.
  destruct (get_nonblocking_cases h self) as (He & Hs & Hp & Hw).
  unfold available.
  destruct (Channel._pending self) as [|q p] eqn:Ep.
  - destruct (Channel._waiting_writers self) as [|[e wv] ws] eqn:Ew.
    + assert (Hraise : (Channel.get h self false None).2
                       = Raised Channel_Empty) by now apply He.
      split; [done|]. split; [auto|]. split; done.
    + split; [now apply (Hw e wv ws)|]. split; [done|].
      split; [done|]. now intros [_ ?].
  - split; [now apply (Hp q p)|]. split; [done|].
    split; [done|]. now intros [? _].
Qed.

Lemma chan_get_nonblocking w c self :
  channels w !! c = Some self →
  (chan_get w c false None).2 =
    match available self with
    | Some v => Returned v
    | None => Raised Channel_Empty
    end
  ∧ (available self = None →
     channels (chan_get w c false None).1 = channels w).
Proof.
  intros Hc. unfold chan_get. rewrite Hc.
  destruct (get_nonblocking_available (heap w) self) as (Hr & Hs & _).
  destruct (Channel.get _ _ _ _) as [[h1 self1] r]. cbn in *.
  split; [done|]. intros ->%Hs. now apply list_insert_id.
Qed.

Lemma select_poll_first chans w :
  Forall (λ c, c < length (channels w)) chans →
  (select_poll w chans).2 =
    match first_available (channels w) chans with
    | Some v => Returned v
    | None => Raised Channel_Empty
    end.
Proof.
  revert w. induction chans as [|c chans IH]; intros w HF; [done|].
  apply Forall_cons in HF as [Hc HF].
  apply lookup_lt_is_Some_2 in Hc as [self Hc].
  cbn [select_poll first_available]. rewrite Hc. cbn [mbind option_bind].
  destruct (chan_get_nonblocking w c self Hc) as [Hr Hs].
  destruct (chan_get w c false None) as [w1 r]. cbn [fst snd] in *.
  destruct (available self) as [v|]; subst r; [done|].
  rewrite <- (Hs eq_refl). apply IH. now rewrite (Hs eq_refl).
Qed.

Lemma first_available_None (chs : list (Channel.t Value)) chans :
  first_available chs chans = None ↔
  Forall (λ c, chs !! c ≫= available = None) chans.
Proof.
  induction chans as [|c chans IH]; cbn.
  - split; [constructor|done].
  - rewrite Forall_cons. destruct (chs !! c ≫= available).
    + split; [done|]. now intros [? _].
    + rewrite IH. tauto.
Qed.

(** C9. Non-blocking select.  For a non-empty list of channels,
    [channel_select( channels, blocking = False )] returns the first value
    that the channels, taken in the order of the list, have to give (the
    head of [_pending], else the value of the first waiting writer, of the
    first channel that has one), and it raises [Empty] exactly when the
    non-blocking [get] of every channel of the list raises [Empty], which
    is when every one of them has neither a pending value nor a waiting
    writer. *)
Theorem select_nonblocking w chans :
  chans ≠ [] →
  Forall (λ c, c < length (channels w)) chans →
  let res := channel_select w chans false in
  res.2 = match first_available (channels w) chans with
          | Some v => Returned v
          | None => Raised Channel_Empty
          end ∧
  (res.2 = Raised Channel_Empty ↔
     Forall (λ c, (chan_get w c false None).2 = Raised Channel_Empty)
            chans) ∧
  (res.2 = Raised Channel_Empty ↔
     Forall (λ c, ∃ self, channels w !! c = Some self
                          ∧ Channel._pending self = []
                          ∧ Channel._waiting_writers self = []) chans).
Proof.
  intros Hne HF. cbn zeta. unfold channel_select.
  destruct chans as [|c0 chans0] eqn:Echans; [done|].
  cbn [truthy negb]. rewrite <- Echans in *. clear Echans Hne c0 chans0.
  rewrite (select_poll_first chans w HF).
  assert (Hiff : match first_available (channels w) chans with
                 | Some v => Returned v
                 | None => Raised Channel_Empty
                 end = Raised Channel_Empty
                 ↔ first_available (channels w) chans = None).
  { destruct (first_available _ _); split; done. }
  split; [done|]. rewrite Hiff, first_available_None.
  split.
  - rewrite !Forall_forall. split; intros Hall c Hin.
    + destruct (lookup_lt_is_Some_2 (channels w) c) as [self Hc].
      { rewrite Forall_forall in HF. now apply HF. }
      destruct (chan_get_nonblocking w c self Hc) as [-> _].
      specialize (Hall c Hin). rewrite Hc in Hall. cbn in Hall.
      now rewrite Hall.
    + destruct (lookup_lt_is_Some_2 (channels w) c) as [self Hc].
      { rewrite Forall_forall in HF. now apply HF. }
      specialize (Hall c Hin).
      destruct (chan_get_nonblocking w c self Hc) as [Hr _].
      rewrite Hr in Hall. rewrite Hc. cbn.
      now destruct (available self).
  - rewrite !Forall_forall. split; intros Hall c Hin.
    + destruct (lookup_lt_is_Some_2 (channels w) c) as [self Hc].
      { rewrite Forall_forall in HF. now apply HF. }
      specialize (Hall c Hin). rewrite Hc in Hall. cbn in Hall.
      exists self. split; [done|].
      now apply (get_nonblocking_available (heap w) self).
    + destruct (Hall c Hin) as (self & Hc & Hp & Hw).
      rewrite Hc. cbn.
      now apply (get_nonblocking_available (heap w) self).
Qed.

(** *** Blocking select over channels that hold one value each *)

Lemma offer_at_fresh_stale (h : Heap Value) s v :
  stale_at h s = false →
  (offer_at h s v).2 = true ∧
  stale_at (offer_at h s v).1 s = true ∧
  get_at (offer_at h s v).1 s = Returned v.
Proof.
  intros Hs. pose proof (offer_at_accepts h s v) as Ha. rewrite Hs in Ha.
  destruct (offer_at h s v) as [h1 b] eqn:E. cbn in Ha. subst b.
  apply offer_at_accepted in E as (-> & Hlt & _).
  unfold stale_at, get_at. cbn [fst snd selectors].
  now rewrite list_lookup_insert_eq.
Qed.

Lemma get_external_holding (h : Heap Value) self s o :
  Channel._pending self = option_list o →
  Channel._waiting_writers self = [] →
  let res := Channel.get h self true (Some s) in
  res.2 = Returned PyNone ∧
  Channel._waiting_writers res.1.2 = [] ∧
  match o with
  | None => res.1.1 = h ∧ Channel._pending res.1.2 = []
  | Some v =>
      res.1.1 = (offer_at h s v).1 ∧
      Channel._pending res.1.2 = if (offer_at h s v).2 then [] else [v]
  end.
Proof.
  intros Hp Hw. cbn zeta. unfold Channel.get.
  rewrite <- (count_stale_pending h self (Some s)) in Hp.
  rewrite <- (count_stale_waiting_writers h self (Some s)) in Hw.
  set (self1 := Channel.count_stale h self (Some s)) in *. clearbody self1.
  destruct o as [v|]; simpl in Hp; rewrite Hp; cbn beta iota.
  - destruct (offer_at h s v) as [h1 []]; cbn [negb fst snd].
    + cbn [Channel.set_pending Channel._waiting_writers]. rewrite Hw.
      cbn. auto.
    + cbn. auto.
  - rewrite Hw. cbn. auto.
Qed.

Lemma chan_get_external w c s o :
  holding w c o →
  let res := chan_get w c true (Some s) in
  res.2 = Returned PyNone ∧
  (∀ c', c' ≠ c → channels res.1 !! c' = channels w !! c') ∧
  match o with
  | None => heap res.1 = heap w ∧ holding res.1 c None
  | Some v =>
      heap res.1 = (offer_at (heap w) s v).1 ∧
      holding res.1 c (if (offer_at (heap w) s v).2 then None else Some v)
  end.
Proof.
  intros (self & Hc & Hp & Hw). cbn zeta. unfold chan_get. rewrite Hc.
  pose proof (get_external_holding (heap w) self s o Hp Hw) as Hg.
  cbn zeta in Hg.
  destruct (Channel.get _ _ _ _) as [[h1 self1] r]. cbn [fst snd] in *.
  destruct Hg as (-> & Hw1 & Ho). split; [done|].
  split. { intros c' Hne. cbn. apply list_lookup_insert_ne. congruence. }
  assert (Hself1 : <[c:=self1]> (channels w) !! c = Some self1).
  { apply list_lookup_insert_eq. now apply lookup_lt_Some in Hc. }
  destruct o as [v|]; destruct Ho as [-> Hp1]; (split; [done|]);
    exists self1; (split; [done|]); (split; [|done]).
  - rewrite Hp1. now destruct (offer_at (heap w) s v).2.
  - done.
Qed.

Lemma holding_same w w' c o :
  channels w' !! c = channels w !! c → holding w c o → holding w' c o.
Proof. intros E (self & Hc & ?). exists self. now rewrite E. Qed.

Lemma holding_same_all w w' chans os :
  (∀ c, c ∈ chans → channels w' !! c = channels w !! c) →
  Forall2 (holding w) chans os → Forall2 (holding w') chans os.
Proof.
  intros Hsame HF. induction HF as [|c o chans os Hc HF IH].
  - constructor.
  - constructor.
    + apply (holding_same w); [|done]. apply Hsame, elem_of_cons. now left.
    + apply IH. intros c' Hin. apply Hsame, elem_of_cons. now right.
Qed.

(** Registering a selector that is already set changes no channel's
    contents and not the store. *)
Lemma select_register_stale s chans :
  ∀ w os,
    stale_at (heap w) s = true →
    NoDup chans →
    Forall2 (holding w) chans os →
    let res := select_register w chans s in
    res.2 = None ∧ heap res.1 = heap w ∧
    Forall2 (holding res.1) chans os ∧
    (∀ c', c' ∉ chans → channels res.1 !! c' = channels w !! c').
Proof.
  induction chans as [|c chans IH]; intros w os Hs Hnd HF.
  - apply Forall2_nil_inv_l in HF as ->. cbn. repeat split; constructor.
  - apply Forall2_cons_inv_l in HF as (o & os' & Ho & HF & ->).
    apply NoDup_cons in Hnd as [Hnin Hnd].
    cbn zeta. cbn [select_register].
    pose proof (chan_get_external w c s o Ho) as Hg. cbn zeta in Hg.
    destruct (chan_get w c true (Some s)) as [w1 r]. cbn [fst snd] in Hg.
    destruct Hg as (-> & Hoth & Hres).
    assert (Hheap : heap w1 = heap w ∧ holding w1 c o).
    { destruct o as [v|]; [|done].
      now rewrite (offer_at_stale _ _ _ Hs) in Hres. }
    destruct Hheap as [Hh Hc1].
    assert (HF1 : Forall2 (holding w1) chans os').
    { apply (holding_same_all w); [|done].
      intros c' Hin. apply Hoth. intros ->. done. }
    destruct (IH w1 os') as (Hr & Hh2 & HF2 & Hoth2); [congruence|done..|].
    destruct (select_register w1 chans s) as [w2 raised].
    cbn [fst snd] in *. split; [done|]. split; [congruence|].
    split.
    + constructor; [|done]. apply (holding_same w1); [|done].
      now apply Hoth2.
    + intros c' [Hne Hnin']%not_elem_of_cons.
      rewrite Hoth2 by done. now apply Hoth.
Qed.

(** Registering a selector that is not yet set: the channels in front
    that hold nothing park it, the first channel that holds a value gives
    it that value, and the channels behind keep theirs. *)
Lemma select_register_fresh s n :
  ∀ chans w v os,
    stale_at (heap w) s = false →
    NoDup chans →
    Forall2 (holding w) chans (replicate n None ++ Some v :: os) →
    let res := select_register w chans s in
    res.2 = None ∧ heap res.1 = (offer_at (heap w) s v).1 ∧
    Forall2 (holding res.1) chans (replicate (S n) None ++ os) ∧
    (∀ c', c' ∉ chans → channels res.1 !! c' = channels w !! c').
Proof.
  induction n as [|n IH]; intros chans w v os Hs Hnd HF; cbn [replicate app] in HF.
  - apply Forall2_cons_inv_r in HF as (c & chans' & Ho & HF & ->).
    apply NoDup_cons in Hnd as [Hnin Hnd].
    cbn zeta. cbn [select_register].
    pose proof (chan_get_external w c s (Some v) Ho) as Hg.
    cbn beta iota zeta in Hg.
    destruct (offer_at_fresh_stale (heap w) s v Hs) as (Hacc & Hst & _).
    rewrite Hacc in Hg.
    destruct (chan_get w c true (Some s)) as [w1 r]. cbn [fst snd] in Hg.
    destruct Hg as (-> & Hoth & Hh & Hc1).
    assert (HF1 : Forall2 (holding w1) chans' os).
    { apply (holding_same_all w); [|done].
      intros c' Hin. apply Hoth. intros ->. done. }
    destruct (select_register_stale s chans' w1 os)
      as (Hr & Hh2 & HF2 & Hoth2); [congruence|done..|].
    destruct (select_register w1 chans' s) as [w2 raised].
    cbn [fst snd replicate app] in *. split; [done|]. split; [congruence|].
    split.
    + constructor; [|done]. apply (holding_same w1); [|done].
      now apply Hoth2.
    + intros c' [Hne Hnin']%not_elem_of_cons.
      rewrite Hoth2 by done. now apply Hoth.
  - apply Forall2_cons_inv_r in HF as (c & chans' & Ho & HF & ->).
    apply NoDup_cons in Hnd as [Hnin Hnd].
    cbn zeta. cbn [select_register].
    pose proof (chan_get_external w c s None Ho) as Hg.
    cbn beta iota zeta in Hg.
    destruct (chan_get w c true (Some s)) as [w1 r]. cbn [fst snd] in Hg.
    destruct Hg as (-> & Hoth & Hh & Hc1).
    assert (HF1 : Forall2 (holding w1) chans'
                          (replicate n None ++ Some v :: os)).
    { apply (holding_same_all w); [|done].
      intros c' Hin. apply Hoth. intros ->. done. }
    destruct (IH chans' w1 v os) as (Hr & Hh2 & HF2 & Hoth2);
      [congruence|done..|].
    destruct (select_register w1 chans' s) as [w2 raised].
    cbn [fst snd] in *. split; [done|]. split; [congruence|].
    split.
    + change (replicate (S (S n)) None ++ os)
        with (None :: (replicate (S n) (@None Value) ++ os)).
      constructor; [|done]. apply (holding_same w1); [|done].
      now apply Hoth2.
    + intros c' [Hne Hnin']%not_elem_of_cons.
      rewrite Hoth2 by done. now apply Hoth.
Qed.

Lemma channel_select_first w chans n v os :
  NoDup chans →
  Forall2 (holding w) chans (replicate n None ++ Some v :: os) →
  let res := channel_select w chans true in
  res.2 = Returned v ∧
  Forall2 (holding res.1) chans (replicate (S n) None ++ os).
Proof.
  intros Hnd HF. cbn zeta. unfold channel_select.
  assert (Hne : truthy chans = true).
  { destruct chans; [|done]. apply Forall2_length in HF.
    rewrite length_app in HF. cbn in HF. lia. }
  rewrite Hne. cbn [negb new_selector].
  set (s := length (selectors (heap w))).
  set (w0 := mkWorld _ (channels w)).
  assert (Hs : stale_at (heap w0) s = false).
  { unfold stale_at. subst w0 s. cbn [heap selectors].
    now rewrite list_lookup_middle. }
  assert (HF0 : Forall2 (holding w0) chans
                        (replicate n None ++ Some v :: os))
    by now apply (holding_same_all w).
  destruct (select_register_fresh s n chans w0 v os Hs Hnd HF0)
    as (Hr & Hh & HF1 & _).
  destruct (select_register w0 chans s) as [w1 raised].
  cbn [fst snd] in *. subst raised. cbn [fst snd].
  split; [|done]. rewrite Hh.
  now apply offer_at_fresh_stale.
Qed.

(** Select after select, the values come out in the order of the list. *)
Lemma selects_in_order chans vs :
  ∀ n w,
    NoDup chans →
    Forall2 (holding w) chans (replicate n None ++ (Some <$> vs)) →
    (selects w chans (length vs)).2 = Returned <$> vs.
Proof.
  induction vs as [|v vs IH]; intros n w Hnd HF; [done|].
  cbn [length selects fmap list_fmap] in *.
  destruct (channel_select_first w chans n v (Some <$> vs) Hnd HF)
    as [Hr HF1].
  destruct (channel_select w chans true) as [w1 r]. cbn [fst snd] in *.
  specialize (IH (S n) w1 Hnd HF1).
  destruct (selects w1 chans (length vs)) as [w2 rs]. cbn [fst snd] in *.
  now rewrite Hr, IH.
Qed.

(** C1. Exactly-once select delivery.  Take [M] different channels, each
    holding exactly one value (one pending value, no waiting writer).
    Then [M] blocking calls of [channel_select] over them, one after the
    other, all return, and the values they return are the [M] values of
    the channels, each once: the list of results is a permutation of the
    list of values. *)
Theorem select_exactly_once w chans vs :
  NoDup chans →
  Forall2 (λ c v, ∃ self, channels w !! c = Some self
                          ∧ Channel._pending self = [v]
                          ∧ Channel._waiting_writers self = [])
          chans vs →
  ∃ rs, (selects w chans (length chans)).2 = Returned <$> rs ∧ rs ≡ₚ vs.
Proof.
  intros Hnd HF. exists vs. split; [|done].
  rewrite (Forall2_length _ _ _ HF).
  apply (selects_in_order chans vs 0 w Hnd). cbn [replicate app].
  apply Forall2_fmap_r. eapply Forall2_impl; [exact HF|].
  intros c v (self & Hc & Hp & Hw). now exists self.
Qed.
End WorldFacts.

(** ** References never dangle *)

Section ReferenceFacts.
Context {Value : Type} `{PyObject Value}.
Implicit Types (h : Heap Value) (w : World Value) (self : Channel.t Value).

Lemma heap_le_refl h : heap_le h h.
Proof. split; lia. Qed.

Lemma heap_le_trans h1 h2 h3 : heap_le h1 h2 → heap_le h2 h3 → heap_le h1 h3.
Proof. intros [??] [??]. split; lia. Qed.

Lemma refs_exist_mono h h' self :
  heap_le h h' → refs_exist h self → refs_exist h' self.
Proof.
  intros [Hs He] [Hr Hw]. split.
  - eapply Forall_impl; [exact Hr|]. cbn. intros. lia.
  - eapply Forall_impl; [exact Hw|]. cbn. intros. lia.
Qed.

Lemma offer_at_size h s v :
  length (selectors (offer_at h s v).1) = length (selectors h)
  ∧ events (offer_at h s v).1 = events h.
Proof.
  unfold offer_at. destruct (selectors h !! s) as [sel|]; [|done].
  destruct (Selector.offer sel v) as [sel' b]. cbn.
  now rewrite length_insert.
Qed.

Lemma hand_over_size h readers v :
  let res := Channel.hand_over h readers v in
  length (selectors res.1.1) = length (selectors h)
  ∧ events res.1.1 = events h
  ∧ (∀ P : nat → Prop, Forall P readers → Forall P res.1.2).
Proof.
  revert h. induction readers as [|s rest IH]; intros h; cbn zeta.
  - cbn. auto.
  - cbn [Channel.hand_over].
    destruct (offer_at_size h s v) as [Hs He].
    destruct (offer_at h s v) as [h1 b]. cbn [fst snd] in *.
    destruct b; cbn [negb].
    + cbn. split; [done|]. split; [done|].
      intros P HP. now apply Forall_cons in HP.
    + destruct (IH h1) as (Hs1 & He1 & HP1).
      split; [congruence|]. split; [congruence|].
      intros P HP. apply HP1. now apply Forall_cons in HP.
Qed.

Lemma put_refs h self v blocking :
  refs_exist h self →
  let res := Channel.put h self v blocking in
  heap_le h res.1.1 ∧ refs_exist res.1.1 res.1.2.
Proof.
  intros [Hr Hw]. cbn zeta. unfold Channel.put.
  destruct (truthy _ && truthy _).
  { split; [apply heap_le_refl|done]. }
  destruct (hand_over_size h (Channel._waiting_readers self) v)
    as (Hs & He & HP).
  destruct (Channel.hand_over h _ v) as [[h1 r1] handed].
  cbn [fst snd] in *. specialize (HP _ Hr).
  assert (Hle : heap_le h h1) by (split; [lia|now rewrite He]).
  assert (Hok : refs_exist h1 (Channel.set_waiting_readers self r1)).
  { split; cbn; [now rewrite Hs|now rewrite He]. }
  destruct handed; [done|].
  destruct (Channel.is_full _); [destruct blocking|]; [|done|done].
  unfold new_event. cbn [fst snd]. split.
  - split; cbn; [lia|]. rewrite He, length_app. cbn. lia.
  - split; cbn; [now rewrite Hs|].
    rewrite length_app. apply Forall_app. split.
    + eapply Forall_impl; [exact Hw|]. cbn. intros. rewrite He. lia.
    + apply Forall_singleton. cbn. lia.
Qed.

Lemma count_stale_refs h self selector :
  refs_exist h self → refs_exist h (Channel.count_stale h self selector).
Proof.
  intros [Hr Hw]. unfold Channel.count_stale.
  destruct selector; [|done]. destruct (_ <? _); [|done].
  split; [|done]. cbn. apply Forall_forall.
  intros s [_ Hin]%list_elem_of_filter.
  rewrite Forall_forall in Hr. now apply Hr.
Qed.

Lemma get_refs h self blocking selector :
  refs_exist h self →
  (∀ s, selector = Some s → s < length (selectors h)) →
  let res := Channel.get h self blocking selector in
  heap_le h res.1.1 ∧ refs_exist res.1.1 res.1.2.
Proof.
  intros Hok%(count_stale_refs h self selector) Hsel. cbn zeta.
  unfold Channel.get.
  set (self1 := Channel.count_stale h self selector) in *. clearbody self1.
  set (hs := match selector with
             | Some s => (h, s, None)
             | None => let '(h0, s) := new_selector h in (h0, s, Some s)
             end).
  assert (Hhs : heap_le h hs.1.1 ∧ hs.1.2 < length (selectors hs.1.1)).
  { subst hs. destruct selector as [s|]; cbn.
    - split; [apply heap_le_refl|now apply Hsel].
    - rewrite length_app. cbn. split; [split; cbn; rewrite ?length_app|]; lia. }
  destruct hs as [[h1 s1] internal]. cbn [fst snd] in Hhs.
  destruct Hhs as [Hle Hs1].
  apply (refs_exist_mono h h1) in Hok; [|done].
  pose proof Hok as [Hr Hw].
  destruct (Channel._pending self1) as [|q p];
    destruct (Channel._waiting_writers self1) as [|[e wv] ws] eqn:Ew.
  - destruct blocking; cbn [fst snd]; (split; [done|]); [|done].
    split; cbn; [|now rewrite Ew].
    apply Forall_app. split; [done|]. now apply Forall_singleton.
  - destruct (offer_at_size h1 s1 wv) as [Hs He].
    destruct (offer_at h1 s1 wv) as [h2 b]. cbn [fst snd] in *.
    assert (Hle2 : heap_le h h2)
      by (destruct Hle; split; [lia|now rewrite He]).
    apply Forall_cons in Hw as [He0 Hw].
    destruct b; cbn [negb fst snd].
    + split.
      * destruct Hle2. split; cbn; [done|now rewrite length_insert].
      * split; cbn; [now rewrite Hs|now rewrite length_insert, He].
    + split; [done|]. split; [now rewrite Hs|].
      rewrite Ew, He. now constructor.
  - destruct (offer_at_size h1 s1 q) as [Hs He].
    destruct (offer_at h1 s1 q) as [h2 b]. cbn [fst snd] in *.
    assert (Hle2 : heap_le h h2)
      by (destruct Hle; split; [lia|now rewrite He]).
    destruct b; cbn [negb fst snd].
    + cbn [Channel.set_pending Channel._waiting_writers]. rewrite Ew.
      cbn [fst snd]. split; [done|]. split; cbn; [now rewrite Hs|].
      rewrite Ew. constructor.
    + split; [done|]. split; [now rewrite Hs|]. rewrite Ew. constructor.
  - destruct (offer_at_size h1 s1 q) as [Hs He].
    destruct (offer_at h1 s1 q) as [h2 b]. cbn [fst snd] in *.
    assert (Hle2 : heap_le h h2)
      by (destruct Hle; split; [lia|now rewrite He]).
    apply Forall_cons in Hw as [He0 Hw].
    destruct b; cbn [negb fst snd].
    + cbn [Channel.set_pending Channel._waiting_writers]. rewrite Ew.
      cbn [fst snd]. split.
      * destruct Hle2. split; cbn; [done|now rewrite length_insert].
      * split; cbn; [now rewrite Hs|now rewrite length_insert, He].
    + split; [done|]. split; [now rewrite Hs|].
      rewrite Ew, He. now constructor.
Qed.

Lemma world_refs_mono h h' (chs : list (Channel.t Value)) :
  heap_le h h' → Forall (refs_exist h) chs → Forall (refs_exist h') chs.
Proof.
  intros Hle HF. eapply Forall_impl; [exact HF|].
  intros self. now apply refs_exist_mono.
Qed.

Lemma chan_put_refs w c v blocking :
  world_refs_exist w →
  heap_le (heap w) (heap (chan_put w c v blocking).1)
  ∧ world_refs_exist (chan_put w c v blocking).1.
Proof.
  intros Hw. unfold chan_put.
  destruct (channels w !! c) as [self|] eqn:E;
    [|split; [apply heap_le_refl|done]].
  pose proof (put_refs (heap w) self v blocking
                (Forall_lookup_1 _ _ _ _ Hw E)) as Hp.
  destruct (Channel.put _ _ _ _) as [[h1 self1] r]. cbn in Hp |- *.
  destruct Hp as [Hle Hok]. split; [done|].
  apply Forall_insert; [|done]. now apply (world_refs_mono (heap w)).
Qed.

Lemma chan_get_refs w c blocking selector :
  world_refs_exist w →
  (∀ s, selector = Some s → s < length (selectors (heap w))) →
  heap_le (heap w) (heap (chan_get w c blocking selector).1)
  ∧ world_refs_exist (chan_get w c blocking selector).1.
Proof.
  intros Hw Hsel. unfold chan_get.
  destruct (channels w !! c) as [self|] eqn:E;
    [|split; [apply heap_le_refl|done]].
  pose proof (get_refs (heap w) self blocking selector
                (Forall_lookup_1 _ _ _ _ Hw E) Hsel) as Hp.
  destruct (Channel.get _ _ _ _) as [[h1 self1] r]. cbn in Hp |- *.
  destruct Hp as [Hle Hok]. split; [done|].
  apply Forall_insert; [|done]. now apply (world_refs_mono (heap w)).
Qed.

Lemma select_register_refs chans :
  ∀ w s,
    world_refs_exist w → s < length (selectors (heap w)) →
    heap_le (heap w) (heap (select_register w chans s).1)
    ∧ world_refs_exist (select_register w chans s).1.
Proof.
  induction chans as [|c chans IH]; intros w s Hw Hs.
  - split; [apply heap_le_refl|done].
  - cbn [select_register].
    destruct (chan_get_refs w c true (Some s) Hw) as [Hle Hw1].
    { now intros s' [= <-]. }
    destruct (chan_get w c true (Some s)) as [w1 r]. cbn [fst snd] in *.
    assert (Hs1 : s < length (selectors (heap w1))) by (destruct Hle; lia).
    destruct (IH w1 s Hw1 Hs1) as [Hle2 Hw2].
    destruct r; try done;
      (split; [now apply (heap_le_trans _ (heap w1))|done]).
Qed.

Lemma select_poll_refs chans :
  ∀ w, world_refs_exist w →
       heap_le (heap w) (heap (select_poll w chans).1)
       ∧ world_refs_exist (select_poll w chans).1.
Proof.
  induction chans as [|c chans IH]; intros w Hw.
  - split; [apply heap_le_refl|done].
  - cbn [select_poll].
    destruct (chan_get_refs w c false None Hw) as [Hle Hw1]; [done|].
    destruct (chan_get w c false None) as [w1 r]. cbn [fst snd] in *.
    destruct (IH w1 Hw1) as [Hle2 Hw2].
    destruct r as [|[]|]; try done;
      (split; [now apply (heap_le_trans _ (heap w1))|done]).
Qed.

Lemma step_refs w o :
  world_refs_exist w → op_refs_exist w o → world_refs_exist (step w o).
Proof.
  intros Hw Ho. destruct o as [size| |c v b|c b sel|s v|chans b];
    cbn [step].
  - unfold world_refs_exist. cbn. apply Forall_app. split; [done|].
    apply Forall_singleton. split; constructor.
  - unfold world_refs_exist. cbn.
    apply (world_refs_mono (heap w)); [|done].
    split; cbn; rewrite ?length_app; lia.
  - now apply chan_put_refs.
  - apply chan_get_refs; [done|]. intros s ->. exact Ho.
  - unfold world_refs_exist. cbn.
    apply (world_refs_mono (heap w)); [|done].
    destruct (offer_at_size (heap w) s v) as [Hs He].
    split; [lia|now rewrite He].
  - unfold channel_select. destruct (negb (truthy chans)); [done|].
    destruct b; [|now apply select_poll_refs].
    cbn [new_selector].
    match goal with
    | |- context [select_register ?w0 chans ?s0] =>
        destruct (select_register_refs chans w0 s0) as [_ Hw1]
    end.
    + unfold world_refs_exist. cbn.
      apply (world_refs_mono (heap w)); [|done].
      split; cbn; rewrite ?length_app; lia.
    + cbn. rewrite length_app. cbn. lia.
    + now destruct (select_register _ chans _) as [w1 [e|]].
Qed.

(** In every store built by a program that passes on only selectors it
    holds, the queues of every channel name objects of the store: the
    cases for a missing object in [stale_at], [offer_at] and [get_at] are
    never taken. *)
Lemma run_refs_exist (ops : list (op Value)) :
  program_refs_exist empty_world ops → world_refs_exist (run ops).
Proof.
  unfold run. assert (Hw : world_refs_exist (Value := Value) empty_world)
    by constructor.
  revert Hw. generalize (empty_world (Value := Value)).
  induction ops as [|o ops IH]; intros w Hw Hp; [done|].
  destruct Hp as [Ho Hp]. cbn. apply IH; [|done]. now apply step_refs.
Qed.
End ReferenceFacts.

(** * Further properties of the code *)

(** ** When [put] and [get] raise *)

Section Raising.
Context {Value : Type} `{PyObject Value}.
Implicit Types (h : Heap Value) (self : Channel.t Value).

Lemma hand_over_all_stale h readers v :
  Forall (λ s, stale_at h s = true) readers →
  Channel.hand_over h readers v = (h, [], false).
Proof.
  induction 1 as [|s rest Hs _ IH]; [done|].
  cbn [Channel.hand_over]. now rewrite (offer_at_stale h s v Hs).
Qed.

Lemma hand_over_handed_iff h readers v :
  (Channel.hand_over h readers v).2 = false
  ↔ Forall (λ s, stale_at h s = true) readers.
Proof.
  split.
  - destruct (Channel.hand_over h readers v) as [[h1 r1] b] eqn:E.
    cbn. intros ->. now apply hand_over_nobody in E.
  - intros HF. now rewrite hand_over_all_stale.
Qed.

Lemma event_wait_not_raised h e x : event_wait h e ≠ Raised x.
Proof. unfold event_wait. now destruct (events h !! e) as [[]|]. Qed.

(** How [put] ends, read off its branches. *)
Lemma put_outcome h self v blocking :
  (Channel.put h self v blocking).2 =
    if truthy (Channel._waiting_readers self)
       && truthy (Channel._pending self)
    then Raised ImpossibleError
    else if (Channel.hand_over h (Channel._waiting_readers self) v).2
    then Returned PyNone
    else if Channel.is_full self then
      if blocking then Waiting (OnEvent (length (events h)))
      else Raised Channel_Full
    else Returned PyNone.
Proof.
  unfold Channel.put. destruct (truthy _ && truthy _); [done|].
  destruct (hand_over_size h (Channel._waiting_readers self) v)
    as (_ & He & _).
  destruct (Channel.hand_over h _ v) as [[h1 r1] handed].
  cbn [fst snd] in *. destruct handed; [done|].
  change (Channel.is_full (Channel.set_waiting_readers self r1))
    with (Channel.is_full self).
  destruct (Channel.is_full self); [|done]. destruct blocking; [|done].
  unfold new_event, event_wait. cbn [fst snd events].
  now rewrite list_lookup_middle, He.
Qed.

(** X1. [put] raises [Full] exactly when it is non-blocking, the invariant
    check passes, every waiting reader is stale and [_pending] has reached
    the size; it raises the invariant exception exactly when readers wait
    while values are pending; it raises nothing else, and a blocking [put]
    on a channel that passes the check raises nothing. *)
Theorem put_raises h self v blocking :
  let r := (Channel.put h self v blocking).2 in
  (r = Raised Channel_Full ↔
     blocking = false
     ∧ ¬ (Channel._waiting_readers self ≠ [] ∧ Channel._pending self ≠ [])
     ∧ Forall (λ s, stale_at h s = true) (Channel._waiting_readers self)
     ∧ Channel.is_full self = true) ∧
  (r = Raised ImpossibleError ↔
     Channel._waiting_readers self ≠ [] ∧ Channel._pending self ≠ []) ∧
  (∀ e, r = Raised e → e = Channel_Full ∨ e = ImpossibleError).
Proof.
  cbn zeta. rewrite put_outcome.
  pose proof (hand_over_handed_iff h (Channel._waiting_readers self) v) as Hh.
  assert (Ht : truthy (Channel._waiting_readers self)
               && truthy (Channel._pending self) = true
               ↔ Channel._waiting_readers self ≠ []
                 ∧ Channel._pending self ≠ []).
  { destruct (Channel._waiting_readers self), (Channel._pending self);
      cbn; intuition congruence. }
  destruct (truthy _ && truthy _).
  { split; [|split].
    - split; [discriminate|]. intros (_ & Hn & _). destruct Hn. now apply Ht.
    - split; [intros _; now apply Ht|done].
    - intros e [= <-]. now right. }
  assert (Hn : ¬ (Channel._waiting_readers self ≠ []
                  ∧ Channel._pending self ≠ []))
    by (intros Hc; apply Ht in Hc; discriminate).
  destruct (Channel.hand_over h _ v).2.
  { split; [|split].
    - split; [discriminate|]. intros (_ & _ & HF & _).
      apply Hh in HF. discriminate.
    - split; [discriminate|done].
    - intros e. discriminate. }
  assert (HF : Forall (λ s, stale_at h s = true)
                      (Channel._waiting_readers self)) by now apply Hh.
  destruct (Channel.is_full self); [destruct blocking|].
  - split; [|split].
    + split; [discriminate|]. intros (? & _). discriminate.
    + split; [discriminate|done].
    + intros e. discriminate.
  - split; [|split].
    + split; [done|]. done.
    + split; [discriminate|done].
    + intros e [= <-]. now left.
  - split; [|split].
    + split; [discriminate|]. intros (_ & _ & _ & ?). discriminate.
    + split; [discriminate|done].
    + intros e. discriminate.
Qed.

(** X2. [get] raises only [Empty], and it does so exactly when it is
    non-blocking and the channel has neither a pending value nor a waiting
    writer, with or without a selector; the store, [_pending] and
    [_waiting_writers] are then as before. *)
Theorem get_raises h self blocking selector :
  let res := Channel.get h self blocking selector in
  (∀ e, res.2 = Raised e → e = Channel_Empty) ∧
  (res.2 = Raised Channel_Empty ↔
     blocking = false
     ∧ Channel._pending self = [] ∧ Channel._waiting_writers self = []) ∧
  (res.2 = Raised Channel_Empty →
     Channel._pending res.1.2 = [] ∧ Channel._waiting_writers res.1.2 = []
     ∧ events res.1.1 = events h
     ∧ ∀ s sel, selectors h !! s = Some sel →
                selectors res.1.1 !! s = Some sel).
Proof.
  cbn zeta. unfold Channel.get.
  rewrite <- (count_stale_pending h self selector).
  rewrite <- (count_stale_waiting_writers h self selector).
  set (self1 := Channel.count_stale h self selector). clearbody self1.
  set (hs := match selector with
             | Some s => (h, s, None)
             | None => let '(h0, s) := new_selector h in (h0, s, Some s)
             end).
  assert (Hhs : events hs.1.1 = events h
                ∧ (∀ s sel, selectors h !! s = Some sel →
                            selectors hs.1.1 !! s = Some sel)
                ∧ ∀ i, hs.2 = Some i → hs.1.1 = (new_selector h).1
                                       ∧ i = (new_selector h).2).
  { subst hs. destruct selector as [s|]; cbn; [done|].
    split; [done|]. split.
    - intros s sel Hl. now apply lookup_app_l_Some.
    - now intros i [= <-]. }
  destruct hs as [[h1 s1] internal]. cbn [fst snd] in Hhs.
  destruct Hhs as (Hev & Hsel & Hint).
  assert (Hres : ∀ h2 e, Channel.get_result h2 internal = Raised e → False).
  { intros h2 e. unfold Channel.get_result, get_at.
    destruct internal; [|done].
    destruct (selectors h2 !! n) as [sel|]; [|done].
    now destruct (Selector.get sel). }
  assert (Hfin : ∀ (h2 : Heap Value) (self2 : Channel.t Value)
                   (r : outcome Value),
            (∀ e, r ≠ Raised e) →
            Channel._pending self1 ≠ [] ∨ Channel._waiting_writers self1 ≠ [] →
            (∀ e, (h2, self2, r).2 = Raised e → e = Channel_Empty) ∧
            ((h2, self2, r).2 = Raised Channel_Empty ↔
               blocking = false ∧ Channel._pending self1 = []
               ∧ Channel._waiting_writers self1 = []) ∧
            ((h2, self2, r).2 = Raised Channel_Empty →
               Channel._pending (h2, self2, r).1.2 = []
               ∧ Channel._waiting_writers (h2, self2, r).1.2 = []
               ∧ events (h2, self2, r).1.1 = events h
               ∧ ∀ s sel, selectors h !! s = Some sel →
                          selectors (h2, self2, r).1.1 !! s = Some sel)).
  { intros h2 self2 r Hr Hne. cbn [fst snd]. split; [|split].
    - intros e E. now apply Hr in E.
    - split; [intros E; now apply Hr in E|].
      intros (_ & ? & ?). destruct Hne; done.
    - intros E. now apply Hr in E. }
  assert (Hret : ∀ e, Returned (Value := Value) PyNone ≠ Raised e) by done.
  assert (Hres' : ∀ h2 e, Channel.get_result h2 internal ≠ Raised e)
    by (intros h2 e E; exact (Hres h2 e E)).
  destruct (Channel._pending self1) as [|q p] eqn:Ep;
    destruct (Channel._waiting_writers self1) as [|[e0 wv] ws] eqn:Ew.
  - destruct blocking; cbn [fst snd].
    + split; [|split].
      * intros e E. now apply Hres in E.
      * split; [intros E; now apply Hres in E|]. intros (? & _). done.
      * intros E. now apply Hres in E.
    + split; [intros e [= <-]; done|]. split; [done|].
      intros _. rewrite Ep, Ew. auto.
  - destruct (offer_at h1 s1 wv) as [h2 []]; cbn [negb];
      apply Hfin; auto.
  - destruct (offer_at h1 s1 q) as [h2 []]; cbn [negb].
    + cbn [Channel.set_pending Channel._waiting_writers]. rewrite Ew.
      apply Hfin; auto.
    + apply Hfin; auto.
  - destruct (offer_at h1 s1 q) as [h2 []]; cbn [negb].
    + cbn [Channel.set_pending Channel._waiting_writers]. rewrite Ew.
      apply Hfin; auto.
    + apply Hfin; auto.
Qed.
End Raising.

(** ** Handing a value to a waiting reader *)

Section HandOver.
Context {Value : Type} `{PyObject Value}.
Implicit Types (h : Heap Value) (self : Channel.t Value).

Lemma hand_over_skips_stale h pre readers v :
  Forall (λ s, stale_at h s = true) pre →
  Channel.hand_over h (pre ++ readers) v = Channel.hand_over h readers v.
Proof.
  induction 1 as [|s rest Hs _ IH]; [done|].
  cbn [app Channel.hand_over]. now rewrite (offer_at_stale h s v Hs).
Qed.

Lemma hand_over_live h s rest v :
  stale_at h s = false →
  Channel.hand_over h (s :: rest) v = ((offer_at h s v).1, rest, true).
Proof.
  intros Hs. cbn [Channel.hand_over].
  destruct (offer_at_fresh_stale h s v Hs) as (Ha & _).
  destruct (offer_at h s v) as [h1 b]. cbn [fst snd] in *. now subst b.
Qed.

(** X3. Hand-off.  When readers wait and the first of them that is not
    stale is [s], [put] gives the value to [s] and returns, whatever the
    size of the channel and whether blocking or not: the stale readers in
    front of [s] and [s] itself leave the queue, [s] now returns the value
    from its [get], and [_pending], [_waiting_writers] and the writer
    events are as before. *)
Theorem put_hands_to_first_live_reader h self v blocking pre s rest :
  Channel._waiting_readers self = pre ++ s :: rest →
  Forall (λ r, stale_at h r = true) pre →
  stale_at h s = false →
  Channel._pending self = [] →
  let res := Channel.put h self v blocking in
  res = ((offer_at h s v).1, Channel.set_waiting_readers self rest,
         Returned PyNone)
  ∧ get_at res.1.1 s = Returned v
  ∧ events res.1.1 = events h
  ∧ Channel._pending res.1.2 = []
  ∧ Channel._waiting_writers res.1.2 = Channel._waiting_writers self.
Proof.
  intros Hr Hpre Hs Hp. cbn zeta.
  assert (E : Channel.put h self v blocking =
              ((offer_at h s v).1, Channel.set_waiting_readers self rest,
               Returned PyNone)).
  { unfold Channel.put. rewrite Hp, andb_false_r, Hr.
    now rewrite hand_over_skips_stale, hand_over_live. }
  rewrite E. cbn [fst snd]. split; [done|].
  split; [now apply offer_at_fresh_stale|].
  split; [apply offer_at_size|]. split; [exact Hp|done].
Qed.

(** X4. Stale readers are invisible to [put].  On a channel whose waiting
    readers are all stale (and that passes the invariant check), [put] does
    exactly what it does on the same channel with an empty reader queue: no
    value is given to a selector that has one already. *)
Theorem put_ignores_stale_readers h self v blocking :
  Forall (λ r, stale_at h r = true) (Channel._waiting_readers self) →
  I1 self →
  Channel.put h self v blocking
  = Channel.put h (Channel.set_waiting_readers self []) v blocking.
Proof.
  intros HF HI. unfold Channel.put.
  cbn [Channel.set_waiting_readers Channel._waiting_readers
       Channel._pending truthy andb].
  replace (truthy (Channel._waiting_readers self)
           && truthy (Channel._pending self)) with false
    by (now destruct HI as [-> | ->]; [|rewrite andb_false_r]).
  now rewrite (hand_over_all_stale h _ v HF).
Qed.
End HandOver.

(** ** Waiting readers are served in the order in which they came *)

Section ReadersInOrder.
Context {Value : Type} `{PyObject Value}.
Implicit Types (h : Heap Value) (self : Channel.t Value).

(** [n] blocking calls of [get] on a channel that has nothing park [n] new
    selectors, one behind the other. *)
Lemma gets_park n :
  ∀ h self,
    Channel._pending self = [] →
    Channel._waiting_writers self = [] →
    gets h self n =
      (mkHeap (selectors h ++ replicate n Selector.init) (events h),
       Channel.set_waiting_readers self
         (Channel._waiting_readers self ++ seq (length (selectors h)) n),
       (λ i, Waiting (OnSelector i)) <$> seq (length (selectors h)) n).
Proof.
  induction n as [|n IH]; intros h self Hp Hw.
  - cbn. rewrite !app_nil_r. now destruct h, self.
  - cbn [gets]. rewrite get_internal_park by done.
    unfold new_selector. cbn [fst snd].
    rewrite IH by done. cbn [selectors events Channel.set_waiting_readers
                             Channel._waiting_readers].
    rewrite length_app. cbn [length]. rewrite Nat.add_1_r.
    rewrite <- !app_assoc. done.
Qed.

(** The values of [vs] go to the readers that wait, one each, first come
    first served. *)
Lemma puts_serve vs blocking :
  ∀ (pre : list (Selector.t Value)) ev self,
    Channel._pending self = [] →
    Channel._waiting_readers self = seq (length pre) (length vs) →
    puts (mkHeap (pre ++ replicate (length vs) Selector.init) ev) self vs
         blocking =
      (mkHeap (pre ++ ((λ v, Selector.Build true v true) <$> vs)) ev,
       Channel.set_waiting_readers self [],
       (λ _, Returned PyNone) <$> vs).
Proof.
  induction vs as [|v vs IH]; intros pre ev self Hp Hr.
  - cbn in *. rewrite <- Hr. now destruct self.
  - cbn [puts length replicate seq] in *.
    set (h := mkHeap (pre ++ Selector.init :: replicate (length vs) Selector.init) ev).
    assert (Hl : selectors h !! length pre = Some Selector.init)
      by (subst h; cbn; now apply list_lookup_middle).
    assert (Hs : stale_at h (length pre) = false)
      by (unfold stale_at; now rewrite Hl).
    destruct (offer_at_fresh_stale h (length pre) v Hs) as (Ha & _).
    destruct (offer_at h (length pre) v) as [h1 b] eqn:Eo.
    cbn [snd] in Ha. subst b.
    apply offer_at_accepted in Eo as (Eh1 & _ & _).
    assert (Eput : Channel.put h self v blocking =
                   (h1, Channel.set_waiting_readers self
                          (seq (S (length pre)) (length vs)),
                    Returned PyNone)).
    { unfold Channel.put. rewrite Hp, andb_false_r, Hr.
      rewrite hand_over_live by done.
      rewrite Eh1.
      replace (offer_at h (length pre) v).1 with h1; [now rewrite Eh1|].
      destruct (offer_at h (length pre) v) as [h1' b'] eqn:Eo'.
      destruct (offer_at_fresh_stale h (length pre) v Hs) as (Ha' & _).
      rewrite Eo' in Ha'. cbn in Ha'. subst b'.
      apply offer_at_accepted in Eo' as (-> & _ & _). now rewrite Eh1. }
    rewrite Eput. subst h1 h. cbn [selectors events].
    rewrite insert_app_r_alt, Nat.sub_diag by done.
    cbn [insert list_insert].
    change (pre ++ Selector.Build true v true
                :: replicate (length vs) Selector.init)
      with (pre ++ [Selector.Build true v true]
                ++ replicate (length vs) Selector.init).
    rewrite app_assoc.
    rewrite IH.
    + cbn [fmap list_fmap]. rewrite <- app_assoc. done.
    + done.
    + cbn. rewrite length_app. cbn. now rewrite Nat.add_1_r.
Qed.

(** X5. Readers are served first come, first served.  On a channel that
    has nothing and nobody waiting, [n] blocking calls of [get] each park a
    new selector and wait; [n] calls of [put] that follow, blocking or
    not and whatever the size, all return, the i-th value is what the i-th
    [get] returns from its selector, nothing is buffered and the reader
    queue is empty again. *)
Theorem readers_served_in_arrival_order h self vs blocking :
  Channel._pending self = [] →
  Channel._waiting_writers self = [] →
  Channel._waiting_readers self = [] →
  let base := length (selectors h) in
  let s1 := gets h self (length vs) in
  let s2 := puts s1.1.1 s1.1.2 vs blocking in
  s1.2 = (λ i, Waiting (OnSelector i)) <$> seq base (length vs) ∧
  s2.2 = (λ _, Returned PyNone) <$> vs ∧
  (∀ i v, vs !! i = Some v → get_at s2.1.1 (base + i) = Returned v) ∧
  Channel._waiting_readers s2.1.2 = [] ∧
  Channel._pending s2.1.2 = [] ∧
  Channel._waiting_writers s2.1.2 = [].
Proof.
  intros Hp Hw Hr. cbn zeta.
  rewrite gets_park by done. cbn [fst snd]. rewrite Hr. cbn [app].
  rewrite puts_serve by done. cbn [fst snd].
  split; [done|]. split; [done|]. split; [|done].
  intros i v Hi. unfold get_at. cbn [selectors].
  rewrite lookup_app_r by lia.
  replace (length (selectors h) + i - length (selectors h)) with i by lia.
  now rewrite list_lookup_fmap, Hi.
Qed.
End ReadersInOrder.

(** ** First in, first out, whatever the size *)

Section FifoAnySize.
Context {Value : Type} `{PyObject Value}.
Implicit Types (h : Heap Value) (self : Channel.t Value).

(** A [get] without selector on a channel with nothing pending takes the
    value of the first waiting writer and sets its event. *)
Lemma get_internal_writer h self blocking e wv ws :
  Channel._pending self = [] →
  Channel._waiting_writers self = (e, wv) :: ws →
  Channel.get h self blocking None =
    (event_set (mkHeap (selectors h ++ [Selector.Build true wv true])
                       (events h)) e,
     Channel.set_waiting_writers self ws,
     Returned wv).
Proof.
  intros Hp Hw. unfold Channel.get. cbn [Channel.count_stale].
  destruct (new_selector h) as [h1 s] eqn:Hn.
  pose proof (offer_at_new h wv) as Ho. rewrite Hn in Ho. cbn [fst snd] in Ho.
  assert (Hs : s = length (selectors h)) by now inversion Hn.
  rewrite Hp, Hw, Ho. cbn [negb Channel.get_result].
  now rewrite get_at_event_set, Hs, get_at_snoc.
Qed.

(** A [get] without selector returns the head of the contents and leaves
    the rest; if a writer waited, the first one has been released. *)
Lemma get_internal_head h self blocking x rest :
  contents self = x :: rest →
  ∃ h' self',
    Channel.get h self blocking None = (h', self', Returned x)
    ∧ contents self' = rest
    ∧ Channel._waiting_readers self' = Channel._waiting_readers self
    ∧ (events h' = events h
       ∧ Channel._waiting_writers self' = Channel._waiting_writers self
       ∨ ∃ e v ws, Channel._waiting_writers self = (e, v) :: ws
                   ∧ Channel._waiting_writers self' = ws
                   ∧ events h' = <[e := true]> (events h)).
Proof.
  unfold contents. intros Hc.
  destruct (Channel._pending self) as [|q p] eqn:Hp.
  - destruct (Channel._waiting_writers self) as [|[e wv] ws] eqn:Hw;
      [done|]. cbn in Hc. injection Hc as <- <-.
    rewrite (get_internal_writer h self blocking e wv ws Hp Hw).
    eexists _, _. split; [reflexivity|].
    cbn. rewrite Hp. split; [done|]. split; [done|]. right.
    now exists e, wv, ws.
  - cbn in Hc. injection Hc as <- <-.
    rewrite (get_internal_pending h self blocking q p Hp). cbn zeta.
    destruct (Channel._waiting_writers self) as [|[e wv] ws] eqn:Hw.
    + eexists _, _. split; [done|]. cbn. rewrite Hw.
      split; [done|]. split; [done|]. now left.
    + eexists _, _. split; [done|]. cbn.
      split; [now rewrite <- app_assoc|]. split; [done|]. right.
      now exists e, wv, ws.
Qed.

(** A blocking [put] on a channel without waiting readers adds its value
    behind everything the channel holds. *)
Lemma put_blocking_contents h self v :
  Channel._waiting_readers self = [] →
  writers_wait_full self →
  let res := Channel.put h self v true in
  contents res.1.2 = contents self ++ [v]
  ∧ Channel._waiting_readers res.1.2 = []
  ∧ writers_wait_full res.1.2
  ∧ length (events h) ≤ length (events res.1.1)
  ∧ (∃ ws', Channel._waiting_writers res.1.2
            = Channel._waiting_writers self ++ ws')
  ∧ (res.2 = Returned PyNone
     ∨ ∃ e, res.2 = Waiting (OnEvent e)
            ∧ (e, v) ∈ Channel._waiting_writers res.1.2
            ∧ e < length (events res.1.1)).
Proof.
  intros Hr Hwf. cbn zeta. rewrite put_no_readers by done.
  unfold contents, writers_wait_full in *.
  destruct (Channel.is_full self) eqn:Hf; cbn [fst snd].
  - cbn. rewrite fmap_app, app_assoc, length_app. cbn.
    split; [done|]. split; [done|]. split; [done|]. split; [lia|].
    split; [eauto|]. right. eexists. split; [done|].
    split; [|lia]. apply elem_of_app. right. now apply list_elem_of_singleton.
  - assert (Hw : Channel._waiting_writers self = []).
    { destruct (Channel._waiting_writers self); [done|].
      discriminate Hwf. done. }
    cbn. rewrite Hw. cbn. rewrite !app_nil_r.
    split; [done|]. split; [done|]. split; [done|]. split; [lia|].
    split; [now exists []|]. now left.
Qed.

Lemma puts_blocking_contents vs :
  ∀ h self,
    Channel._waiting_readers self = [] →
    writers_wait_full self →
    let s1 := puts h self vs true in
    contents s1.1.2 = contents self ++ vs
    ∧ Channel._waiting_readers s1.1.2 = []
    ∧ writers_wait_full s1.1.2
    ∧ length (events h) ≤ length (events s1.1.1)
    ∧ (∃ ws', Channel._waiting_writers s1.1.2
              = Channel._waiting_writers self ++ ws')
    ∧ Forall (λ r, r = Returned PyNone
                   ∨ ∃ e v, r = Waiting (OnEvent e)
                            ∧ (e, v) ∈ Channel._waiting_writers s1.1.2
                            ∧ e < length (events s1.1.1)) s1.2.
Proof.
  induction vs as [|v vs IH]; intros h self Hr Hwf; cbn zeta.
  - cbn [puts fst snd]. rewrite app_nil_r.
    split; [done|]. split; [done|]. split; [done|]. split; [lia|].
    split; [exists []; now rewrite app_nil_r|constructor].
  - cbn [puts].
    destruct (put_blocking_contents h self v Hr Hwf)
      as (Hc1 & Hr1 & Hwf1 & He1 & [ws1 Hw1] & Ho1).
    destruct (Channel.put h self v true) as [[h1 self1] r1].
    cbn [fst snd] in *.
    destruct (IH h1 self1 Hr1 Hwf1) as (Hc2 & Hr2 & Hwf2 & He2 & [ws2 Hw2] & Ho2).
    destruct (puts h1 self1 vs true) as [[h2 self2] rs]. cbn [fst snd] in *.
    split; [now rewrite Hc2, Hc1, <- app_assoc|]. split; [done|].
    split; [done|]. split; [lia|].
    split; [exists (ws1 ++ ws2); now rewrite Hw2, Hw1, app_assoc|].
    constructor; [|done].
    destruct Ho1 as [->|(e & -> & Hin & Hlt)]; [now left|].
    right. exists e, v. split; [done|]. split; [|lia].
    rewrite Hw2. apply elem_of_app. now left.
Qed.

(** As many calls of [get] as the channel holds values return these values
    in order, leave nothing, and release every writer that waited. *)
Lemma gets_drain n :
  ∀ h self,
    length (contents self) = n →
    let s2 := gets h self n in
    s2.2 = Returned <$> contents self
    ∧ contents s2.1.2 = []
    ∧ length (events s2.1.1) = length (events h)
    ∧ (∀ e, events h !! e = Some true → events s2.1.1 !! e = Some true)
    ∧ (∀ e v, (e, v) ∈ Channel._waiting_writers self →
              e < length (events h) → events s2.1.1 !! e = Some true).
Proof.
  induction n as [|n IH]; intros h self Hlen; cbn zeta.
  - destruct (contents self) as [|x rest] eqn:Hc; [|done].
    cbn. rewrite Hc. repeat split; try done.
    intros e v Hin _. unfold contents in Hc.
    apply app_eq_nil in Hc as [_ Hw]. apply fmap_nil_inv in Hw.
    rewrite Hw in Hin. now apply elem_of_nil in Hin.
  - destruct (contents self) as [|x rest] eqn:Hc; [done|].
    cbn in Hlen. injection Hlen as Hlen. cbn [gets].
    destruct (get_internal_head h self true x rest Hc)
      as (h1 & self1 & -> & Hc1 & _ & Hcase).
    rewrite <- Hc1 in Hlen.
    destruct (IH h1 self1 Hlen) as (Hr & He & Hl & Hmono & Hrel).
    destruct (gets h1 self1 n) as [[h2 self2] rs]. cbn [fst snd] in *.
    split; [now rewrite Hr, Hc1|]. split; [done|].
    destruct Hcase as [[Hev Hw]|(e0 & v0 & ws & Hw & Hw1 & Hev)].
    + rewrite Hev in *. rewrite Hw in *. repeat split; done.
    + rewrite Hev, length_insert in *. split; [done|].
      assert (Hkeep : ∀ e, events h !! e = Some true →
                           <[e0:=true]> (events h) !! e = Some true).
      { intros e Hl'. destruct (decide (e0 = e)) as [->|Hne].
        - apply list_lookup_insert_eq. now apply lookup_lt_Some in Hl'.
        - now rewrite list_lookup_insert_ne. }
      split; [intros e Hl'; now apply Hmono, Hkeep|].
      intros e v. rewrite Hw. intros [[= -> ->]|Hin]%elem_of_cons Hlt.
      * apply Hmono. now apply list_lookup_insert_eq.
      * apply (Hrel e v); [now rewrite Hw1|done].
Qed.

(** X6. First in, first out, whatever the size.  On a channel without
    waiting readers on which writers wait only when it is full (as in every
    store a program builds), blocking calls of [put] with [v1..vN] followed
    by calls of [get] hand out everything the channel held, in order, and
    then [v1..vN] in order: the values pass through the buffer and the
    writer queue without overtaking one another. *)
Theorem fifo_any_size h self vs :
  Channel._waiting_readers self = [] →
  writers_wait_full self →
  let s1 := puts h self vs true in
  let s2 := gets s1.1.1 s1.1.2 (length (contents self ++ vs)) in
  s2.2 = Returned <$> (contents self ++ vs) ∧ contents s2.1.2 = [].
Proof.
  intros Hr Hwf. cbn zeta.
  destruct (puts_blocking_contents vs h self Hr Hwf) as (Hc & _).
  rewrite <- Hc.
  destruct (gets_drain (length (contents (puts h self vs true).1.2))
              (puts h self vs true).1.1 (puts h self vs true).1.2 eq_refl)
    as (Hres & Hemp & _).
  done.
Qed.

(** X7. No writer is left waiting.  In the same situation every call of
    [put] either returned at once or waits on an event of its own, and once
    the calls of [get] have taken everything, each of these events is set:
    every [put] that waited returns. *)
Theorem blocked_writers_released h self vs :
  Channel._waiting_readers self = [] →
  writers_wait_full self →
  let s1 := puts h self vs true in
  let s2 := gets s1.1.1 s1.1.2 (length (contents self ++ vs)) in
  Forall (λ r, r = Returned PyNone
               ∨ ∃ e, r = Waiting (OnEvent e)
                      ∧ event_wait s2.1.1 e = Returned PyNone) s1.2.
Proof.
  intros Hr Hwf. cbn zeta.
  destruct (puts_blocking_contents vs h self Hr Hwf)
    as (Hc & _ & _ & _ & _ & Hout).
  rewrite <- Hc.
  destruct (gets_drain (length (contents (puts h self vs true).1.2))
              (puts h self vs true).1.1 (puts h self vs true).1.2 eq_refl)
    as (_ & _ & _ & _ & Hrel).
  eapply Forall_impl; [exact Hout|]. cbn beta.
  intros r [->|(e & v & -> & Hin & Hlt)]; [now left|].
  right. exists e. split; [done|].
  unfold event_wait. now rewrite (Hrel e v Hin Hlt).
Qed.
End FifoAnySize.

(** ** What holds for every channel of every store a program builds *)

Section RunInvariants.
Context {Value : Type} `{PyObject Value}.
Implicit Types (h : Heap Value) (w : World Value) (self : Channel.t Value).

(** A property of channels that [__init__] establishes and that [put] and
    [get] keep holds for all channels of all stores. *)
Section Lifting.
Variable P : Channel.t Value → Prop.
Hypothesis P_init : ∀ size, P (Channel.init size).
Hypothesis P_put : ∀ h self v blocking,
  P self → P (Channel.put h self v blocking).1.2.
Hypothesis P_get : ∀ h self blocking selector,
  P self → P (Channel.get h self blocking selector).1.2.

Lemma chan_put_keeps w c v blocking :
  Forall P (channels w) → Forall P (channels (chan_put w c v blocking).1).
Proof using P_put.
  intros Hw. unfold chan_put.
  destruct (channels w !! c) as [self|] eqn:E; [|done].
  pose proof (P_put (heap w) self v blocking
                (Forall_lookup_1 _ _ _ _ Hw E)) as Hok.
  destruct (Channel.put _ _ _ _) as [[h1 self1] r]. cbn in *.
  now apply Forall_insert.
Qed.

Lemma chan_get_keeps w c blocking selector :
  Forall P (channels w) →
  Forall P (channels (chan_get w c blocking selector).1).
Proof using P_get.
  intros Hw. unfold chan_get.
  destruct (channels w !! c) as [self|] eqn:E; [|done].
  pose proof (P_get (heap w) self blocking selector
                (Forall_lookup_1 _ _ _ _ Hw E)) as Hok.
  destruct (Channel.get _ _ _ _) as [[h1 self1] r]. cbn in *.
  now apply Forall_insert.
Qed.

Lemma select_register_keeps chans :
  ∀ w s, Forall P (channels w) →
         Forall P (channels (select_register w chans s).1).
Proof using P_get.
  induction chans as [|c chans IH]; intros w s Hw; [done|].
  cbn [select_register].
  pose proof (chan_get_keeps w c true (Some s) Hw) as Hok.
  destruct (chan_get _ _ _ _) as [w1 r]. cbn in Hok.
  destruct r; auto.
Qed.

Lemma select_poll_keeps chans :
  ∀ w, Forall P (channels w) → Forall P (channels (select_poll w chans).1).
Proof using P_get.
  induction chans as [|c chans IH]; intros w Hw; [done|].
  cbn [select_poll].
  pose proof (chan_get_keeps w c false None Hw) as Hok.
  destruct (chan_get _ _ _ _) as [w1 r]. cbn in Hok.
  destruct r as [|[]|]; auto.
Qed.

Lemma step_keeps w o :
  Forall P (channels w) → Forall P (channels (step w o)).
Proof using P_init P_put P_get.
  intros Hw. destruct o as [size| |c v b|c b sel|s v|chans b]; cbn [step].
  - cbn. apply Forall_app. split; [done|]. now apply Forall_singleton.
  - done.
  - now apply chan_put_keeps.
  - now apply chan_get_keeps.
  - done.
  - unfold channel_select. destruct (negb (truthy chans)); [done|].
    destruct b; [|now apply select_poll_keeps].
    cbn [new_selector].
    match goal with
    | |- context [select_register ?w0 chans ?s0] =>
        pose proof (select_register_keeps chans w0 s0 Hw) as Hok;
        destruct (select_register w0 chans s0) as [w1 [e|]]
    end; done.
Qed.

Lemma run_keeps (ops : list (op Value)) : Forall P (channels (run ops)).
Proof using P_init P_put P_get.
  unfold run.
  assert (Hw : Forall P (channels (empty_world (Value := Value))))
    by constructor.
  revert Hw. generalize (empty_world (Value := Value)).
  induction ops as [|o ops IH]; intros w Hw; [done|].
  cbn. apply IH. now apply step_keeps.
Qed.
End Lifting.

Lemma put_writers_wait_full h self v blocking :
  writers_wait_full self →
  writers_wait_full (Channel.put h self v blocking).1.2.
Proof.
  unfold writers_wait_full. intros Hwf. unfold Channel.put.
  destruct (truthy _ && truthy _); [done|].
  destruct (Channel.hand_over h _ v) as [[h1 r1] handed].
  destruct handed; [done|].
  change (Channel.is_full (Channel.set_waiting_readers self r1))
    with (Channel.is_full self).
  destruct (Channel.is_full self) eqn:Hf; [destruct blocking|];
    cbn [fst snd new_event]; try done.
  cbn. intros Hne. apply Hwf in Hne. congruence.
Qed.

Lemma is_full_same_length self self' :
  Channel._max self' = Channel._max self →
  length (Channel._pending self') = length (Channel._pending self) →
  Channel.is_full self' = Channel.is_full self.
Proof. unfold Channel.is_full. now intros -> ->. Qed.

Lemma get_writers_wait_full h self blocking selector :
  writers_wait_full self →
  writers_wait_full (Channel.get h self blocking selector).1.2.
Proof.
  unfold writers_wait_full. intros Hwf.
  assert (Hwf1 : Channel._waiting_writers
                   (Channel.count_stale h self selector) ≠ [] →
                 Channel.is_full (Channel.count_stale h self selector)
                 = true).
  { rewrite count_stale_waiting_writers. intros Hne.
    rewrite <- (Hwf Hne). apply is_full_same_length.
    - apply count_stale_max.
    - now rewrite count_stale_pending. }
  clear Hwf. unfold Channel.get.
  set (self1 := Channel.count_stale h self selector) in *. clearbody self1.
  destruct (match selector with
            | Some s => (h, s, None)
            | None => let '(h0, s) := new_selector h in (h0, s, Some s)
            end) as [[h1 s1] internal].
  destruct (Channel._pending self1) as [|q p] eqn:Ep;
    destruct (Channel._waiting_writers self1) as [|[e wv] ws] eqn:Ew.
  - destruct blocking; cbn; now rewrite Ew.
  - destruct (offer_at h1 s1 wv) as [h2 []]; cbn [negb fst snd].
    + cbn. intros _. rewrite <- Hwf1 by done.
      apply is_full_same_length; [done|]. cbn. now rewrite Ep.
    + now rewrite Ew.
  - destruct (offer_at h1 s1 q) as [h2 []]; cbn [negb fst snd].
    + cbn [Channel.set_pending Channel._waiting_writers]. rewrite Ew.
      cbn. done.
    + now rewrite Ew.
  - destruct (offer_at h1 s1 q) as [h2 []]; cbn [negb fst snd].
    + cbn [Channel.set_pending Channel._waiting_writers]. rewrite Ew.
      cbn [fst snd]. cbn. intros _. rewrite <- Hwf1 by done.
      apply is_full_same_length; [done|]. cbn. rewrite Ep, length_app.
      cbn. lia.
    + now rewrite Ew.
Qed.

Lemma run_writers_wait_full (ops : list (op Value)) :
  Forall writers_wait_full (channels (run ops)).
Proof.
  apply run_keeps.
  - intros size. now intros Hne.
  - intros. now apply put_writers_wait_full.
  - intros. now apply get_writers_wait_full.
Qed.

(** X8. Writers wait only on a full channel.  In every store a program
    builds, a channel that has waiting writers has as many pending values
    as its size allows; in particular nobody ever waits to write on a
    channel without size. *)
Theorem writers_wait_only_when_full (ops : list (op Value)) :
  Forall (λ self,
            (Channel._waiting_writers self ≠ [] →
             Channel.is_full self = true)
            ∧ (Channel._max self = None → Channel._waiting_writers self = []))
         (channels (run ops)).
Proof.
  eapply Forall_impl; [apply run_writers_wait_full|].
  intros self Hwf. split; [exact Hwf|].
  intros Hm. destruct (Channel._waiting_writers self) eqn:Ew; [done|].
  unfold writers_wait_full in Hwf. rewrite Ew in Hwf.
  unfold Channel.is_full in Hwf. rewrite Hm in Hwf.
  discriminate Hwf. done.
Qed.

(** X9. The buffer never exceeds the size.  In every store a program
    builds, a channel made with size [n] has at most [n] pending values,
    and none at all when [n] is zero or negative. *)
Theorem pending_within_size (ops : list (op Value)) :
  Forall (λ self, ∀ n, Channel._max self = Some n →
                       (Z.of_nat (length (Channel._pending self)) ≤ Z.max 0 n)%Z
                       ∧ ((n ≤ 0)%Z → Channel._pending self = []))
         (channels (run ops)).
Proof.
  eapply Forall_impl; [apply (run_ok ops)|].
  intros self (_ & HC & _) n Hm. specialize (HC n Hm). split; [done|].
  intros Hn. destruct (Channel._pending self); [done|]. cbn in HC. lia.
Qed.

Lemma put_stale h self v blocking :
  Channel._stale (Channel.put h self v blocking).1.2 = Channel._stale self.
Proof.
  unfold Channel.put.
  destruct (truthy _ && truthy _); [done|].
  destruct (Channel.hand_over h _ v) as [[h1 r1] handed].
  destruct handed; [done|].
  destruct (Channel.is_full _); [destruct blocking|]; done.
Qed.

(** X10. The stale counter stays within its threshold.  In every store a
    program builds, [_stale] of every channel is at most 256, the value
    that [_max_stale] has from [__init__] on. *)
Theorem stale_counter_bounded (ops : list (op Value)) :
  Forall (λ self, Channel._stale self ≤ 256 ∧ Channel._max_stale self = 256)
         (channels (run ops)).
Proof.
  apply run_keeps.
  - intros size. cbn. split; [lia|done].
  - intros h self v blocking [Hs Hm].
    now rewrite put_stale, put_max_stale.
  - intros h self blocking selector [Hs Hm].
    destruct (get_after_count h self blocking selector)
      as (_ & -> & -> & _).
    split; [|done]. unfold Channel.count_stale.
    destruct selector; [|done].
    cbn [Channel.set_stale Channel._max_stale Channel._stale].
    rewrite Hm.
    destruct (Nat.ltb_spec 256 (S (Channel._stale self))); cbn; lia.
Qed.

(** X11. A [put] on a channel without size always returns.  In every store
    a program builds, [put] on such a channel, blocking or not, returns
    [None] at once: it never raises and never waits. *)
Theorem unbounded_put_returns (ops : list (op Value)) c self v blocking :
  channels (run ops) !! c = Some self →
  Channel._max self = None →
  (chan_put (run ops) c v blocking).2 = Returned PyNone.
Proof.
  intros Hc Hm. unfold chan_put. rewrite Hc.
  pose proof (put_outcome (heap (run ops)) self v blocking) as Ho.
  destruct (Channel.put _ _ _ _) as [[h1 self1] r]. cbn [snd] in *.
  rewrite Ho.
  destruct (Forall_lookup_1 _ _ _ _ (run_ok ops) Hc) as (HI & _).
  replace (truthy (Channel._waiting_readers self)
           && truthy (Channel._pending self)) with false
    by (now destruct HI as [-> | ->]; [|rewrite andb_false_r]).
  destruct (Channel.hand_over _ _ _).2; [done|].
  unfold Channel.is_full. now rewrite Hm.
Qed.
End RunInvariants.

(** ** What a selector has accepted stays *)

Section Delivered.
Context {Value : Type} `{PyObject Value}.
Implicit Types (h : Heap Value) (w : World Value) (self : Channel.t Value).

Lemma heap_after_refl h : heap_after h h.
Proof. repeat split; auto. Qed.

Lemma heap_after_trans h1 h2 h3 :
  heap_after h1 h2 → heap_after h2 h3 → heap_after h1 h3.
Proof.
  intros (A1 & B1 & C1) (A2 & B2 & C2). repeat split; eauto.
Qed.

Lemma heap_after_offer h s v : heap_after h (offer_at h s v).1.
Proof.
  unfold offer_at, Selector.offer.
  destruct (selectors h !! s) as [sel0|] eqn:E; [|apply heap_after_refl].
  destruct (Selector._set sel0) eqn:Hs0; cbn [fst].
  - rewrite list_insert_id by done. rewrite heap_eta. apply heap_after_refl.
  - split; [|split]; cbn [selectors events].
    + intros s' sel Hl Hset. rewrite list_lookup_insert_ne; [done|].
      intros ->. congruence.
    + done.
    + intros HF. now apply Forall_insert.
Qed.

Lemma heap_after_new_selector h : heap_after h (new_selector h).1.
Proof.
  split; [|split]; cbn.
  - intros s sel Hl _. now apply lookup_app_l_Some.
  - done.
  - intros HF. apply Forall_app. split; [done|]. now apply Forall_singleton.
Qed.

Lemma heap_after_new_event h : heap_after h (new_event h).1.
Proof.
  split; [|split]; cbn; [done| |done].
  intros e Hl. now apply lookup_app_l_Some.
Qed.

Lemma heap_after_event_set h e : heap_after h (event_set h e).
Proof.
  split; [|split]; cbn; [done| |done].
  intros e' Hl. destruct (decide (e = e')) as [->|Hne].
  - apply list_lookup_insert_eq. now apply lookup_lt_Some in Hl.
  - now rewrite list_lookup_insert_ne.
Qed.

Lemma heap_after_hand_over readers :
  ∀ h v, heap_after h (Channel.hand_over h readers v).1.1.
Proof.
  induction readers as [|s rest IH]; intros h v; [apply heap_after_refl|].
  cbn [Channel.hand_over].
  pose proof (heap_after_offer h s v) as Ho.
  destruct (offer_at h s v) as [h1 b]. cbn [fst] in Ho.
  destruct b; cbn [negb]; [done|].
  eapply heap_after_trans; [exact Ho|apply IH].
Qed.

Lemma heap_after_put h self v blocking :
  heap_after h (Channel.put h self v blocking).1.1.
Proof.
  unfold Channel.put.
  destruct (truthy _ && truthy _); [apply heap_after_refl|].
  pose proof (heap_after_hand_over (Channel._waiting_readers self) h v) as Ho.
  destruct (Channel.hand_over h _ v) as [[h1 r1] handed]. cbn [fst] in Ho.
  destruct handed; [done|].
  destruct (Channel.is_full _); [destruct blocking|]; [|done|done].
  cbn [fst snd].
  eapply heap_after_trans; [exact Ho|apply heap_after_new_event].
Qed.

Lemma heap_after_get h self blocking selector :
  heap_after h (Channel.get h self blocking selector).1.1.
Proof.
  unfold Channel.get.
  set (self1 := Channel.count_stale h self selector). clearbody self1.
  set (hs := match selector with
             | Some s => (h, s, None)
             | None => let '(h0, s) := new_selector h in (h0, s, Some s)
             end).
  assert (Hhs : heap_after h hs.1.1).
  { subst hs. destruct selector; [apply heap_after_refl|].
    apply heap_after_new_selector. }
  destruct hs as [[h1 s1] internal]. cbn [fst] in Hhs.
  destruct (Channel._pending self1) as [|q p];
    destruct (Channel._waiting_writers self1) as [|[e wv] ws] eqn:Ew.
  - now destruct blocking.
  - pose proof (heap_after_offer h1 s1 wv) as Ho.
    destruct (offer_at h1 s1 wv) as [h2 []]; cbn [negb fst snd] in *.
    + eapply heap_after_trans; [exact Hhs|].
      eapply heap_after_trans; [exact Ho|apply heap_after_event_set].
    + now apply (heap_after_trans _ h1).
  - pose proof (heap_after_offer h1 s1 q) as Ho.
    destruct (offer_at h1 s1 q) as [h2 []]; cbn [negb fst snd] in *.
    + cbn [Channel.set_pending Channel._waiting_writers]. rewrite Ew.
      now apply (heap_after_trans _ h1).
    + now apply (heap_after_trans _ h1).
  - pose proof (heap_after_offer h1 s1 q) as Ho.
    destruct (offer_at h1 s1 q) as [h2 []]; cbn [negb fst snd] in *.
    + cbn [Channel.set_pending Channel._waiting_writers]. rewrite Ew.
      cbn [fst]. eapply heap_after_trans; [exact Hhs|].
      eapply heap_after_trans; [exact Ho|apply heap_after_event_set].
    + now apply (heap_after_trans _ h1).
Qed.

Lemma heap_after_chan_put w c v blocking :
  heap_after (heap w) (heap (chan_put w c v blocking).1).
Proof.
  unfold chan_put. destruct (channels w !! c) as [self|];
    [|apply heap_after_refl].
  pose proof (heap_after_put (heap w) self v blocking) as Ho.
  now destruct (Channel.put _ _ _ _) as [[h1 self1] r].
Qed.

Lemma heap_after_chan_get w c blocking selector :
  heap_after (heap w) (heap (chan_get w c blocking selector).1).
Proof.
  unfold chan_get. destruct (channels w !! c) as [self|];
    [|apply heap_after_refl].
  pose proof (heap_after_get (heap w) self blocking selector) as Ho.
  now destruct (Channel.get _ _ _ _) as [[h1 self1] r].
Qed.

Lemma heap_after_select_register chans :
  ∀ w s, heap_after (heap w) (heap (select_register w chans s).1).
Proof.
  induction chans as [|c chans IH]; intros w s; [apply heap_after_refl|].
  cbn [select_register].
  pose proof (heap_after_chan_get w c true (Some s)) as Ho.
  destruct (chan_get _ _ _ _) as [w1 r]. cbn [fst] in Ho.
  destruct r; try done; eapply heap_after_trans; eauto.
Qed.

Lemma heap_after_select_poll chans :
  ∀ w, heap_after (heap w) (heap (select_poll w chans).1).
Proof.
  induction chans as [|c chans IH]; intros w; [apply heap_after_refl|].
  cbn [select_poll].
  pose proof (heap_after_chan_get w c false None) as Ho.
  destruct (chan_get _ _ _ _) as [w1 r]. cbn [fst] in Ho.
  destruct r as [|[]|]; try done; eapply heap_after_trans; eauto.
Qed.

Lemma heap_after_step w o : heap_after (heap w) (heap (step w o)).
Proof.
  destruct o as [size| |c v b|c b sel|s v|chans b]; cbn [step].
  - apply heap_after_refl.
  - apply heap_after_new_selector.
  - apply heap_after_chan_put.
  - apply heap_after_chan_get.
  - apply heap_after_offer.
  - unfold channel_select. destruct (negb (truthy chans));
      [apply heap_after_refl|].
    destruct b; [|apply heap_after_select_poll].
    cbn [new_selector].
    match goal with
    | |- context [select_register ?w0 chans ?s0] =>
        pose proof (heap_after_select_register chans w0 s0) as Ho;
        destruct (select_register w0 chans s0) as [w1 [e|]]
    end; cbn [fst heap] in *;
      (eapply heap_after_trans; [apply heap_after_new_selector|exact Ho]).
Qed.

Lemma heap_after_steps ops :
  ∀ w, heap_after (heap w) (heap (fold_left step ops w)).
Proof.
  induction ops as [|o ops IH]; intros w; [apply heap_after_refl|].
  cbn. eapply heap_after_trans; [apply heap_after_step|apply IH].
Qed.

Lemma run_settled (ops : list (op Value)) :
  Forall selector_settled (selectors (heap (run ops))).
Proof.
  destruct (heap_after_steps ops (empty_world (Value := Value)))
    as (_ & _ & HF).
  apply HF. constructor.
Qed.

(** X12. A selector waits exactly until it has accepted a value.  In every
    store a program builds, the event of each selector is set if and only
    if the selector is set: [get] on it returns its value when [stale]
    answers true, and waits when [stale] answers false. *)
Theorem selector_get_returns_iff_stale (ops : list (op Value)) :
  Forall (λ sel, Selector._event sel = Selector._set sel
                 ∧ (Selector.stale sel = true →
                    Selector.get sel = Some (Selector._value sel))
                 ∧ (Selector.stale sel = false → Selector.get sel = None))
         (selectors (heap (run ops))).
Proof.
  eapply Forall_impl; [apply run_settled|].
  intros sel Hs. unfold selector_settled in Hs.
  unfold Selector.stale, Selector.get. rewrite Hs.
  split; [done|]. split; now intros ->.
Qed.

(** X13. A delivered value is final.  Once [get] on a selector returns a
    value [v] in a store a program has built, it returns [v] in every
    later store, whatever the program goes on to do with channels and
    selectors: no later offer replaces what a selector has accepted. *)
Theorem delivered_value_is_final (ops more : list (op Value)) s v :
  get_at (heap (run ops)) s = Returned v →
  get_at (heap (run (ops ++ more))) s = Returned v.
Proof.
  unfold run. rewrite fold_left_app. fold (run ops).
  destruct (heap_after_steps more (run ops)) as (Hkeep & _).
  unfold get_at. intros Hg.
  destruct (selectors (heap (run ops)) !! s) as [sel|] eqn:Hl; [|done].
  pose proof (Forall_lookup_1 _ _ _ _ (run_settled ops) Hl) as Hs.
  unfold selector_settled in Hs. unfold Selector.get in Hg.
  destruct (Selector._event sel) eqn:He; [|done].
  rewrite (Hkeep s sel Hl (eq_sym Hs)). unfold Selector.get.
  now rewrite He.
Qed.
End Delivered.

(** ** A select takes one value, from the first channel that has one *)

Section SelectTakesOne.
Context {Value : Type} `{PyObject Value}.
Implicit Types (h : Heap Value) (w : World Value) (self : Channel.t Value).


Lemma count_stale_contents h self selector :
  contents (Channel.count_stale h self selector) = contents self.
Proof.
  unfold contents.
  now rewrite count_stale_pending, count_stale_waiting_writers.
Qed.










End SelectTakesOne.

(** ** A select that waits is served by the next [put] *)

Section SelectWakes.
Context {Value : Type} `{PyObject Value}.
Implicit Types (h : Heap Value) (w : World Value) (self : Channel.t Value).

Lemma count_stale_idle h s self selector :
  stale_at h s = false →
  idle_for h s self →
  idle_for h s (Channel.count_stale h self selector)
  ∧ (s ∈ Channel._waiting_readers self →
     s ∈ Channel._waiting_readers (Channel.count_stale h self selector)).
Proof.
  intros Hs (Hp & Hw & Hr). unfold idle_for.
  rewrite count_stale_pending, count_stale_waiting_writers.
  unfold Channel.count_stale. destruct selector; [|done].
  destruct (_ <? _); [|done]. cbn. split.
  - split; [done|]. split; [done|]. apply Forall_forall.
    intros r [_ Hin]%list_elem_of_filter.
    rewrite Forall_forall in Hr. now apply Hr.
  - intros Hin. now apply list_elem_of_filter.
Qed.

Lemma get_external_idle h s self :
  stale_at h s = false →
  idle_for h s self →
  let res := Channel.get h self true (Some s) in
  res.1.1 = h ∧ res.2 = Returned PyNone
  ∧ idle_for h s res.1.2 ∧ s ∈ Channel._waiting_readers res.1.2.
Proof.
  intros Hs Hidle. cbn zeta.
  destruct (count_stale_idle h s self (Some s) Hs Hidle)
    as [(Hp & Hw & Hr) _].
  unfold Channel.get.
  set (self1 := Channel.count_stale h self (Some s)) in *. clearbody self1.
  rewrite Hp, Hw. cbn. split; [done|]. split; [done|]. split.
  - split; [done|]. split; [done|]. apply Forall_app. split; [done|].
    apply Forall_singleton. now left.
  - apply elem_of_app. right. now apply list_elem_of_singleton.
Qed.

Lemma chan_get_parks w s c :
  stale_at (heap w) s = false →
  idle_at w s c →
  let res := chan_get w c true (Some s) in
  res.2 = Returned PyNone ∧ heap res.1 = heap w
  ∧ parked_at res.1 s c
  ∧ (∀ c', idle_at w s c' → idle_at res.1 s c')
  ∧ (∀ c', parked_at w s c' → parked_at res.1 s c').
Proof.
  intros Hs (self & Hc & Hidle). cbn zeta. unfold chan_get. rewrite Hc.
  destruct (get_external_idle (heap w) s self Hs Hidle)
    as (Hh & Hr & Hidle1 & Hin).
  destruct (Channel.get _ _ _ _) as [[h1 self1] r].
  cbn [fst snd heap channels] in *. subst h1 r.
  assert (Hl : <[c:=self1]> (channels w) !! c = Some self1).
  { apply list_lookup_insert_eq. now apply lookup_lt_Some in Hc. }
  assert (Hpark : parked_at (mkWorld (heap w) (<[c:=self1]> (channels w)))
                            s c) by now exists self1.
  split; [done|]. split; [done|]. split; [done|]. split.
  - intros c' (self' & Hc' & Hidle'). destruct (decide (c' = c)) as [->|Hne].
    + now exists self1.
    + exists self'. cbn. now rewrite list_lookup_insert_ne.
  - intros c' (self' & Hc' & Hidle' & Hin').
    destruct (decide (c' = c)) as [->|Hne]; [done|].
    exists self'. cbn. now rewrite list_lookup_insert_ne.
Qed.

Lemma select_register_parks chans :
  ∀ w s,
    stale_at (heap w) s = false →
    (∀ c, c ∈ chans → idle_at w s c) →
    let res := select_register w chans s in
    res.2 = None ∧ heap res.1 = heap w
    ∧ (∀ c, c ∈ chans → parked_at res.1 s c)
    ∧ (∀ c, idle_at w s c → idle_at res.1 s c)
    ∧ (∀ c, parked_at w s c → parked_at res.1 s c).
Proof.
  induction chans as [|c chans IH]; intros w s Hs Hidle.
  - cbn. repeat split; try done. intros c Hin. now apply elem_of_nil in Hin.
  - cbn zeta. cbn [select_register].
    destruct (chan_get_parks w s c Hs) as (Hr & Hh & Hp & Hi1 & Hp1).
    { apply Hidle, elem_of_cons. now left. }
    destruct (chan_get w c true (Some s)) as [w1 r]. cbn [fst snd] in *.
    subst r.
    destruct (IH w1 s) as (Hr2 & Hh2 & Hp2 & Hi2 & Hpp2).
    { now rewrite Hh. }
    { intros c' Hin. apply Hi1, Hidle, elem_of_cons. now right. }
    split; [done|]. split; [congruence|]. split; [|split].
    + intros c' [->|Hin]%elem_of_cons; [now apply Hpp2|now apply Hp2].
    + intros c' Hc'. now apply Hi2, Hi1.
    + intros c' Hc'. now apply Hpp2, Hp1.
Qed.

Lemma hand_over_idle h s v readers :
  stale_at h s = false →
  Forall (λ r, r = s ∨ stale_at h r = true) readers →
  s ∈ readers →
  ∃ rest, Channel.hand_over h readers v = ((offer_at h s v).1, rest, true).
Proof.
  intros Hs HF. induction HF as [|r rs Hr HF IH]; intros Hin.
  - now apply elem_of_nil in Hin.
  - destruct (stale_at h r) eqn:Hstale.
    + cbn [Channel.hand_over]. rewrite (offer_at_stale h r v Hstale).
      cbn [negb]. apply IH.
      apply elem_of_cons in Hin as [->|Hin]; [congruence|done].
    + destruct Hr as [->|Hr]; [|congruence].
      exists rs. now apply hand_over_live.
Qed.

(** X16. A select that waits is served by the next [put].  When every
    channel of the list has nothing to give and only stale readers in its
    queue, a blocking [channel_select] waits on its new selector; a [put]
    that follows on any channel of the list, blocking or not and whatever
    the size of the channel, returns at once and its value is what the
    select returns: the selector holds it, and the channel has buffered
    nothing. *)
Theorem select_served_by_next_put w chans c v blocking :
  Forall (λ c, ∃ self, channels w !! c = Some self
                       ∧ Channel._pending self = []
                       ∧ Channel._waiting_writers self = []
                       ∧ Forall (λ r, stale_at (heap w) r = true)
                                (Channel._waiting_readers self)) chans →
  c ∈ chans →
  let s := length (selectors (heap w)) in
  let s1 := channel_select w chans true in
  let s2 := chan_put s1.1 c v blocking in
  s1.2 = Waiting (OnSelector s)
  ∧ s2.2 = Returned PyNone
  ∧ get_at (heap s2.1) s = Returned v
  ∧ ∃ self', channels s2.1 !! c = Some self'
             ∧ Channel._pending self' = []
             ∧ Channel._waiting_writers self' = [].
Proof.
  intros HF Hc. cbn zeta. unfold channel_select.
  assert (Hne : truthy chans = true).
  { destruct chans; [|done]. now apply elem_of_nil in Hc. }
  rewrite Hne. cbn [negb new_selector].
  set (s := length (selectors (heap w))).
  set (w0 := mkWorld _ (channels w)).
  assert (Hs : stale_at (heap w0) s = false).
  { unfold stale_at. subst w0 s. cbn [heap selectors].
    now rewrite list_lookup_middle. }
  assert (Hidle : ∀ c', c' ∈ chans → idle_at w0 s c').
  { intros c' Hin. rewrite Forall_forall in HF.
    destruct (HF c' Hin) as (self & Hl & Hp & Hw & Hr).
    exists self. split; [done|]. split; [done|]. split; [done|].
    eapply Forall_impl; [exact Hr|]. cbn beta. intros r Hst.
    destruct (decide (r = s)) as [->|Hne']; [now left|]. right.
    unfold stale_at in *. subst w0. cbn [heap selectors].
    destruct (selectors (heap w) !! r) as [sel|] eqn:Hlr.
    - now rewrite (lookup_app_l_Some _ _ _ _ Hlr).
    - apply lookup_ge_None in Hlr.
      rewrite lookup_ge_None_2; [done|]. rewrite length_app. cbn.
      subst s. lia. }
  destruct (select_register_parks chans w0 s Hs Hidle)
    as (Hr & Hh & Hpark & _).
  destruct (select_register w0 chans s) as [w1 raised].
  cbn [fst snd] in *. subst raised. cbn [fst snd].
  split. { rewrite Hh. subst w0 s. apply (get_at_new (heap w)). }
  destruct (Hpark c Hc) as (self & Hl & (Hp & Hw & Hrd) & Hin).
  unfold chan_put. rewrite Hl.
  rewrite Hh in Hrd. rewrite <- Hh in Hs.
  rewrite Hh in Hs.
  destruct (hand_over_idle (heap w0) s v (Channel._waiting_readers self)
              Hs Hrd Hin) as [rest Hho].
  unfold Channel.put. rewrite Hp, andb_false_r, Hh, Hho. cbn [fst snd heap].
  split; [done|]. split; [now apply offer_at_fresh_stale|].
  exists (Channel.set_waiting_readers self rest).
  split; [|done]. cbn. apply list_lookup_insert_eq.
  now apply lookup_lt_Some in Hl.
Qed.
End SelectWakes.

(** ** How [get] ends, a channel of size zero, and readers that wait *)

Section Endings.
Context {Value : Type} `{PyObject Value}.
Implicit Types (h : Heap Value) (self : Channel.t Value).

Lemma contents_nil self :
  contents self = [] ↔
  Channel._pending self = [] ∧ Channel._waiting_writers self = [].
Proof.
  unfold contents. split.
  - intros [Hp Hw]%app_eq_nil. now apply fmap_nil_inv in Hw.
  - now intros [-> ->].
Qed.

(** X17. How [get] ends.  With an external selector [get] never returns a
    value: it returns [None], or raises [Empty] when it is non-blocking and
    the channel holds nothing.  Without one it returns the first value the
    channel holds (pending values before those of waiting writers); when
    the channel holds nothing it waits on a new selector if blocking and
    raises [Empty] if not. *)
Theorem get_outcome h self blocking selector :
  (Channel.get h self blocking selector).2 =
    match selector, contents self with
    | Some _, [] => if blocking then Returned PyNone
                    else Raised Channel_Empty
    | Some _, _ :: _ => Returned PyNone
    | None, x :: _ => Returned x
    | None, [] => if blocking
                  then Waiting (OnSelector (length (selectors h)))
                  else Raised Channel_Empty
    end.
Proof.
  destruct selector as [s|].
  - rewrite <- (count_stale_contents h self (Some s)).
    unfold Channel.get, contents.
    set (self1 := Channel.count_stale h self (Some s)). clearbody self1.
    destruct (Channel._pending self1) as [|q p];
      destruct (Channel._waiting_writers self1) as [|[e wv] ws] eqn:Ew;
      cbn [app fmap list_fmap];
      try (destruct (offer_at h s _) as [h1 []]; cbn [negb]);
      rewrite ?Ew; cbn [Channel.set_pending Channel._waiting_writers];
      rewrite ?Ew; try destruct blocking; done.
  - destruct (contents self) as [|x rest] eqn:Hc.
    + apply contents_nil in Hc as [Hp Hw]. destruct blocking.
      * now rewrite get_internal_park.
      * now apply (get_nonblocking_cases h self).
    + destruct (get_internal_head h self blocking x rest Hc)
        as (h1 & self1 & -> & _). done.
Qed.

(** X18. A channel of size zero never buffers.  On a channel made with
    size zero (or less) and with nothing pending, [put] leaves [_pending]
    empty: it returns at once exactly when a reader that is not stale
    waits, and otherwise waits on a new event if blocking and raises [Full]
    if not. *)
Theorem zero_size_put h self v blocking n :
  Channel._max self = Some n →
  (n ≤ 0)%Z →
  Channel._pending self = [] →
  let res := Channel.put h self v blocking in
  Channel._pending res.1.2 = [] ∧
  (Forall (λ r, stale_at h r = true) (Channel._waiting_readers self) →
   res.2 = if blocking then Waiting (OnEvent (length (events h)))
           else Raised Channel_Full) ∧
  (¬ Forall (λ r, stale_at h r = true) (Channel._waiting_readers self) →
   res.2 = Returned PyNone).
Proof.
  intros Hm Hn Hp. cbn zeta.
  assert (Hf : Channel.is_full self = true).
  { unfold Channel.is_full. rewrite Hm, Hp. cbn. now apply Z.leb_le. }
  pose proof (hand_over_handed_iff h (Channel._waiting_readers self) v) as Hh.
  rewrite put_outcome, Hp, andb_false_r, Hf.
  split; [|split].
  - unfold Channel.put. rewrite Hp, andb_false_r.
    destruct (Channel.hand_over h _ v) as [[h1 r1] handed].
    destruct handed; [done|].
    change (Channel.is_full (Channel.set_waiting_readers self r1))
      with (Channel.is_full self).
    rewrite Hf. now destruct blocking.
  - intros HF. apply Hh in HF. now rewrite HF.
  - intros HF. destruct (Channel.hand_over h _ v).2; [done|].
    destruct HF. now apply Hh.
Qed.

(** What the hand-over loop of [put] leaves: nobody took the value and
    the queue is empty, or the first reader that was not stale took it and
    the readers behind it stay. *)
Lemma hand_over_cases h readers v :
  (Forall (λ r, stale_at h r = true) readers
   ∧ Channel.hand_over h readers v = (h, [], false))
  ∨ ∃ pre s rest,
      readers = pre ++ s :: rest
      ∧ Forall (λ r, stale_at h r = true) pre
      ∧ stale_at h s = false
      ∧ Channel.hand_over h readers v = ((offer_at h s v).1, rest, true).
Proof.
  induction readers as [|r rs IH].
  - left. now split.
  - destruct (stale_at h r) eqn:Hr.
    + destruct IH as [[HF E]|(pre & s & rest & -> & HF & Hs & E)].
      * left. split; [now constructor|].
        now apply hand_over_all_stale; constructor.
      * right. exists (r :: pre), s, rest. split; [done|].
        split; [now constructor|]. split; [done|].
        cbn [app Channel.hand_over]. now rewrite (offer_at_stale h r v Hr).
    + right. exists [], r, rs. split; [done|]. split; [constructor|].
      split; [done|]. now apply hand_over_live.
Qed.

(** X19. A reader that still waits is never dropped.  [get] keeps in the
    queue every reader that is not stale, also when it compacts the queue;
    and every reader that [put] takes out of the queue is stale by the time
    [put] is done, either because it was stale already or because this
    [put] has given it its value. *)
Theorem live_readers_are_kept h self :
  (∀ blocking selector r,
     r ∈ Channel._waiting_readers self → stale_at h r = false →
     r ∈ Channel._waiting_readers
           (Channel.get h self blocking selector).1.2) ∧
  (∀ v blocking r,
     r ∈ Channel._waiting_readers self →
     r ∈ Channel._waiting_readers (Channel.put h self v blocking).1.2
     ∨ stale_at (Channel.put h self v blocking).1.1 r = true).
Proof.
  split.
  - intros blocking selector r Hin Hs.
    destruct (get_after_count h self blocking selector) as (-> & _).
    apply elem_of_app. left. unfold Channel.count_stale.
    destruct selector; [|done]. destruct (_ <? _); [|done].
    cbn. now apply list_elem_of_filter.
  - intros v blocking r Hin. unfold Channel.put.
    destruct (truthy _ && truthy _); [now left|].
    destruct (hand_over_cases h (Channel._waiting_readers self) v)
      as [[HF ->]|(pre & s & rest & E & HF & Hs & ->)].
    + right. rewrite Forall_forall in HF. specialize (HF r Hin).
      destruct (Channel.is_full _); [destruct blocking|]; done.
    + cbn [fst snd]. rewrite E in Hin.
      apply elem_of_app in Hin as [Hin|[->|Hin]%elem_of_cons].
      * right. rewrite Forall_forall in HF. specialize (HF r Hin).
        destruct (offer_at_fresh_stale h s v Hs) as (Ha & _).
        destruct (offer_at h s v) as [h1 b] eqn:Eo. cbn [fst snd] in *.
        subst b. apply offer_at_accepted in Eo as (-> & _ & _).
        unfold stale_at in *. cbn [selectors].
        rewrite list_lookup_insert_ne; [done|]. intros ->. congruence.
      * right. now apply offer_at_fresh_stale.
      * now left.
Qed.
End Endings.

(** * Concrete runs *)

Lemma select_exactly_once_witness :
  NoDup [0; 1] ∧
  Forall2 (λ c v, ∃ self, channels two_channels !! c = Some self
                          ∧ Channel._pending self = [v]
                          ∧ Channel._waiting_writers self = [])
          [0; 1] [VInt 1; VInt 2] ∧
  ∃ rs, (selects two_channels [0; 1] 2).2 = Returned <$> rs
        ∧ rs ≡ₚ [VInt 1; VInt 2].
Proof.
  assert (Hnd : NoDup [0; 1]).
  { repeat constructor; rewrite ?elem_of_cons, ?elem_of_nil; lia. }
  assert (HF : Forall2 (λ c v, ∃ self, channels two_channels !! c = Some self
                                       ∧ Channel._pending self = [v]
                                       ∧ Channel._waiting_writers self = [])
                       [0; 1] [VInt 1; VInt 2]).
  { repeat constructor; eexists; repeat split; reflexivity. }
  split; [exact Hnd|]. split; [exact HF|].
  exact (select_exactly_once two_channels [0; 1] [VInt 1; VInt 2] Hnd HF).
Defined.

Lemma fifo_round_trip_witness :
  Channel._max (buffer_of []) = None ∧
  Channel._waiting_readers (buffer_of []) = [] ∧
  let after := puts no_heap (buffer_of []) [VInt 1; VInt 2; VInt 3] true in
  (gets after.1.1 after.1.2 3).2
  = [Returned (VInt 1); Returned (VInt 2); Returned (VInt 3)].
Proof.
  split; [reflexivity|]. split; [reflexivity|].
  apply (fifo_round_trip no_heap (buffer_of []) [VInt 1; VInt 2; VInt 3] true);
    reflexivity.
Defined.

Lemma capacity_bound_witness :
  channels (run [NewChannel (Some 2%Z)]) !! 0
  = Some (Channel.init (Value := pyval) (Some 2%Z)) ∧
  Channel._max (Channel.init (Value := pyval) (Some 2%Z))
  = Some (Z.of_nat 2) ∧
  Channel._waiting_readers (Channel.init (Value := pyval) (Some 2%Z)) = [] ∧
  let self := Channel.init (Value := pyval) (Some 2%Z) in
  let s1 := puts no_heap self [VInt 1; VInt 2] false in
  let s2 := Channel.put s1.1.1 s1.1.2 (VInt 3) false in
  let s3 := Channel.get s2.1.1 s2.1.2 true None in
  let s4 := Channel.put s3.1.1 s3.1.2 (VInt 4) false in
  s1.2 = [Returned VNone; Returned VNone] ∧
  s2.2 = Raised Channel_Full ∧
  s3.2 = Returned (VInt 1) ∧
  s4.2 = Returned VNone.
Proof.
  split; [reflexivity|]. split; [reflexivity|]. split; [reflexivity|].
  destruct (capacity_bound [NewChannel (Some 2%Z)] 0
              (Channel.init (Some 2%Z)) 2 (VInt 0)
              eq_refl eq_refl eq_refl) as (_ & _ & Hcycle).
  destruct (Hcycle eq_refl eq_refl [VInt 1; VInt 2] (VInt 3) (VInt 4) eq_refl)
    as (H1 & _ & H2 & _ & H3 & H4).
  destruct (H3 (VInt 1) [VInt 2] eq_refl) as [H3' _].
  cbn zeta. split; [exact H1|]. split; [exact H2|]. split; [exact H3'|].
  exact H4.
Defined.

Lemma selector_single_assignment_witness :
  Selector._set (Selector.init (Value := pyval)) = false ∧
  let first := Selector.offer Selector.init (VInt 1) in
  first.2 = true ∧
  offer_all first.1 [VInt 2; VInt 3] = (first.1, [false; false]) ∧
  Selector.get (offer_all first.1 [VInt 2; VInt 3]).1 = Some (VInt 1).
Proof.
  split; [reflexivity|].
  destruct (selector_single_assignment Selector.init (VInt 1)
              [VInt 2; VInt 3] eq_refl)
    as (H1 & _ & _ & _ & H2 & _ & H3).
  cbn zeta. split; [exact H1|]. split; [exact H2|exact H3].
Defined.

Lemma get_refused_pushes_back_witness :
  let h := mkHeap [served] [] in
  let self := Channel.Build (Some 1%Z) [VInt 1] [(0, VInt 2)] [] 0 256 in
  selectors h !! 0 = Some served ∧
  Selector._set served = true ∧
  let res := Channel.get h self true (Some 0) in
  res.1.1 = h ∧
  Channel._pending res.1.2 = [VInt 1] ∧
  Channel._waiting_writers res.1.2 = [(0, VInt 2)] ∧
  res.2 = Returned VNone.
Proof.
  cbn zeta. split; [reflexivity|]. split; [reflexivity|].
  destruct (get_refused_pushes_back (mkHeap [served] [])
              (Channel.Build (Some 1%Z) [VInt 1] [(0, VInt 2)] [] 0 256)
              true 0 served eq_refl eq_refl)
    as (H1 & H2 & H3 & H4).
  split; [exact H1|]. split; [exact H2|]. split; [exact H3|].
  apply H4. left. discriminate.
Defined.

Lemma get_stale_compaction_witness :
  let h := mkHeap [served; Selector.init; Selector.init] [] in
  let self := Channel.Build None [] [] [0; 1] 256 256 in
  Channel._max_stale self = 256 ∧
  let self' := (Channel.get h self true (Some 2)).1.2 in
  Channel._waiting_readers self' = [1; 2] ∧ Channel._stale self' = 0.
Proof.
  cbn zeta. split; [reflexivity|].
  destruct (get_stale_compaction
              (mkHeap [served; Selector.init; Selector.init] [])
              (Channel.Build None [] [] [0; 1] 256 256) true (Some 2)
              eq_refl)
    as (_ & Hover & _).
  apply (Hover 2 eq_refl). cbn. lia.
Defined.

Lemma select_nonblocking_witness :
  let w := mkWorld no_heap [buffer_of []; buffer_of [VInt 5; VInt 6]] in
  [0; 1] ≠ [] ∧
  Forall (λ c, c < length (channels w)) [0; 1] ∧
  (channel_select w [0; 1] false).2 = Returned (VInt 5).
Proof.
  cbn zeta.
  assert (HF : Forall (λ c, c < 2) [0; 1]) by (repeat constructor; lia).
  split; [discriminate|]. split; [exact HF|].
  apply (select_nonblocking
           (mkWorld no_heap [buffer_of []; buffer_of [VInt 5; VInt 6]])
           [0; 1]); [discriminate|exact HF].
Defined.


(** * The example scenarios of the specification, run on the model *)

(** Scenario 1: [Channel( 1 )]; [put(1)] returns, [put(2, False)] raises
    [Full], [get()] returns 1, [put(2, False)] returns. *)
Example scenario_capacity_one :
  let c0 := Channel.init (Value := pyval) (Some 1%Z) in
  let s1 := Channel.put no_heap c0 (VInt 1) true in
  let s2 := Channel.put s1.1.1 s1.1.2 (VInt 2) false in
  let s3 := Channel.get s2.1.1 s2.1.2 true None in
  let s4 := Channel.put s3.1.1 s3.1.2 (VInt 2) false in
  [s1.2; s2.2; s3.2; s4.2]
  = [Returned VNone; Raised Channel_Full; Returned (VInt 1); Returned VNone]
  ∧ Channel._pending s4.1.2 = [VInt 2].
Proof. split; reflexivity. Qed.

(** Scenario 2: [Channel( 0 )]; a [put] has to wait for its event, the
    [get] of another thread returns the value and sets that event. *)
Example scenario_handshake :
  let c0 := Channel.init (Value := pyval) (Some 0%Z) in
  let s1 := Channel.put no_heap c0 (VInt 7) true in
  let s2 := Channel.get s1.1.1 s1.1.2 true None in
  s1.2 = Waiting (OnEvent 0)
  ∧ s2.2 = Returned (VInt 7)
  ∧ event_wait s2.1.1 0 = Returned VNone
  ∧ Channel._pending s2.1.2 = []
  ∧ Channel._waiting_writers s2.1.2 = [].
Proof. repeat split; reflexivity. Qed.

(** The same hand-shake the other way round: the [get] waits on its
    selector, the [put] gives the value to it. *)
Example scenario_handshake_reader_first :
  let c0 := Channel.init (Value := pyval) (Some 0%Z) in
  let s1 := Channel.get no_heap c0 true None in
  let s2 := Channel.put s1.1.1 s1.1.2 (VInt 7) false in
  s1.2 = Waiting (OnSelector 0)
  ∧ s2.2 = Returned VNone
  ∧ get_at s2.1.1 0 = Returned (VInt 7)
  ∧ Channel._waiting_readers s2.1.2 = [].
Proof. repeat split; reflexivity. Qed.

(** Scenario 4: two channels with one value each, two blocking selects. *)
Example scenario_two_selects :
  (selects two_channels [0; 1] 2).2 = [Returned (VInt 1); Returned (VInt 2)].
Proof. reflexivity. Qed.

(** After them the first channel still has the selector of the second
    select in its reader queue: it lost that race. *)
Example scenario_stale_reader_left :
  let w := (selects two_channels [0; 1] 2).1 in
  Channel._waiting_readers <$> channels w = [[1]; []]
  ∧ stale_at (heap w) 1 = true.
Proof. split; reflexivity. Qed.

(** Scenario 5: the empty list is refused at once. *)
Example scenario_empty_list :
  (channel_select two_channels [] false).2 = Raised AssertionError
  ∧ (channel_select two_channels [] true).2 = Raised AssertionError.
Proof. split; reflexivity. Qed.

(** A blocking select over channels that are all empty parks its selector
    on each of them and waits; a later [put] on any of them serves it. *)
Example scenario_select_waits :
  let w := mkWorld no_heap [buffer_of []; buffer_of []] in
  let s1 := channel_select w [0; 1] true in
  let s2 := chan_put s1.1 1 (VInt 3) true in
  s1.2 = Waiting (OnSelector 0)
  ∧ Channel._waiting_readers <$> channels s1.1 = [[0]; [0]]
  ∧ s2.2 = Returned VNone
  ∧ get_at (heap s2.1) 0 = Returned (VInt 3)
  ∧ Channel._waiting_readers <$> channels s2.1 = [[0]; []].
Proof. repeat split; reflexivity. Qed.

(** A refused non-blocking [put] that is not without effect, in a store a
    program builds: a zero-size channel and a channel with one value, a
    blocking select over both (the first parks the selector, the second
    serves it), then [put( 4, False )] on the first. *)
Example scenario_full_drops_reader :
  let w := run [NewChannel (Some 0%Z); NewChannel None;
                Put 1 (VInt 3) true; Select [0; 1] true] in
  let s := chan_put w 0 (VInt 4) false in
  Channel._waiting_readers <$> channels w = [[0]; []]
  ∧ s.2 = Raised Channel_Full
  ∧ Channel._waiting_readers <$> channels s.1 = [[]; []]
  ∧ Channel._pending <$> channels s.1 = [[]; []].
Proof. repeat split; reflexivity. Qed.

(** * Concrete runs of the further properties *)

Lemma put_hands_to_first_live_reader_witness :
  Channel._waiting_readers two_readers = [0] ++ 1 :: [] ∧
  Forall (λ r, stale_at served_and_new r = true) [0] ∧
  stale_at served_and_new 1 = false ∧
  Channel._pending two_readers = [] ∧
  let res := Channel.put served_and_new two_readers (VInt 5) false in
  res.2 = Returned VNone
  ∧ get_at res.1.1 1 = Returned (VInt 5)
  ∧ Channel._waiting_readers res.1.2 = [].
Proof.
  assert (HF : Forall (λ r, stale_at served_and_new r = true) [0])
    by (repeat constructor).
  split; [reflexivity|]. split; [exact HF|].
  split; [reflexivity|]. split; [reflexivity|].
  destruct (put_hands_to_first_live_reader served_and_new two_readers
              (VInt 5) false [0] 1 [] eq_refl HF eq_refl eq_refl)
    as (E & Hg & _).
  cbn zeta. rewrite E. cbn [fst snd]. split; [reflexivity|].
  split; [|reflexivity]. rewrite E in Hg. exact Hg.
Defined.

Lemma put_ignores_stale_readers_witness :
  let h := mkHeap [served] [] in
  let self := Channel.Build None [] [] [0] 0 256 in
  Forall (λ r, stale_at h r = true) (Channel._waiting_readers self) ∧
  I1 self ∧
  Channel.put h self (VInt 5) true
  = Channel.put h (Channel.set_waiting_readers self []) (VInt 5) true.
Proof.
  cbn zeta.
  assert (HF : Forall (λ r, stale_at (mkHeap [served] []) r = true)
                 (Channel._waiting_readers
                    (Channel.Build (Value := pyval) None [] [] [0] 0 256)))
    by (repeat constructor).
  assert (HI : I1 (Channel.Build (Value := pyval) None [] [] [0] 0 256))
    by (right; reflexivity).
  split; [exact HF|]. split; [exact HI|].
  exact (put_ignores_stale_readers (mkHeap [served] [])
           (Channel.Build None [] [] [0] 0 256) (VInt 5) true HF HI).
Defined.

Lemma readers_served_in_arrival_order_witness :
  Channel._pending (sized 0) = [] ∧
  Channel._waiting_writers (sized 0) = [] ∧
  Channel._waiting_readers (sized 0) = [] ∧
  let s1 := gets no_heap (sized 0) 2 in
  let s2 := puts s1.1.1 s1.1.2 [VInt 1; VInt 2] false in
  s1.2 = [Waiting (OnSelector 0); Waiting (OnSelector 1)]
  ∧ s2.2 = [Returned VNone; Returned VNone]
  ∧ get_at s2.1.1 0 = Returned (VInt 1)
  ∧ get_at s2.1.1 1 = Returned (VInt 2).
Proof.
  split; [reflexivity|]. split; [reflexivity|]. split; [reflexivity|].
  destruct (readers_served_in_arrival_order no_heap (sized 0)
              [VInt 1; VInt 2] false eq_refl eq_refl eq_refl)
    as (H1 & H2 & H3 & _).
  cbn zeta. split; [exact H1|]. split; [exact H2|].
  split; [exact (H3 0 (VInt 1) eq_refl)|exact (H3 1 (VInt 2) eq_refl)].
Defined.

Lemma fifo_any_size_witness :
  Channel._waiting_readers (sized 1) = [] ∧
  writers_wait_full (sized 1) ∧
  let s1 := puts no_heap (sized 1) [VInt 1; VInt 2; VInt 3] true in
  let s2 := gets s1.1.1 s1.1.2 3 in
  s2.2 = [Returned (VInt 1); Returned (VInt 2); Returned (VInt 3)].
Proof.
  assert (Hwf : writers_wait_full (sized 1))
    by (intros Hne; exfalso; apply Hne; reflexivity).
  split; [reflexivity|]. split; [exact Hwf|].
  exact (proj1 (fifo_any_size no_heap (sized 1) [VInt 1; VInt 2; VInt 3]
                  eq_refl Hwf)).
Defined.

Lemma blocked_writers_released_witness :
  Channel._waiting_readers (sized 1) = [] ∧
  writers_wait_full (sized 1) ∧
  let s1 := puts no_heap (sized 1) [VInt 1; VInt 2; VInt 3] true in
  let s2 := gets s1.1.1 s1.1.2 3 in
  s1.2 = [Returned VNone; Waiting (OnEvent 0); Waiting (OnEvent 1)]
  ∧ Forall (λ r, r = Returned VNone
                 ∨ ∃ e, r = Waiting (OnEvent e)
                        ∧ event_wait s2.1.1 e = Returned VNone) s1.2.
Proof.
  assert (Hwf : writers_wait_full (sized 1))
    by (intros Hne; exfalso; apply Hne; reflexivity).
  split; [reflexivity|]. split; [exact Hwf|].
  cbn zeta. split; [reflexivity|].
  exact (blocked_writers_released no_heap (sized 1)
           [VInt 1; VInt 2; VInt 3] eq_refl Hwf).
Defined.

Lemma unbounded_put_returns_witness :
  channels (run [NewChannel None; Put 0 (VInt 1) true]) !! 0
  = Some (buffer_of [VInt 1]) ∧
  Channel._max (buffer_of [VInt 1]) = None ∧
  (chan_put (run [NewChannel None; Put 0 (VInt 1) true]) 0 (VInt 2) false).2
  = Returned VNone.
Proof.
  split; [reflexivity|]. split; [reflexivity|].
  exact (unbounded_put_returns [NewChannel None; Put 0 (VInt 1) true] 0
           (buffer_of [VInt 1]) (VInt 2) false eq_refl eq_refl).
Defined.

Lemma delivered_value_is_final_witness :
  let ops := [NewChannel None; Put 0 (VInt 3) true; Select [0] true] in
  let more := [Put 0 (VInt 4) true; Select [0] true; Offer 0 (VInt 5)] in
  get_at (heap (run ops)) 0 = Returned (VInt 3) ∧
  get_at (heap (run (ops ++ more))) 0 = Returned (VInt 3).
Proof.
  cbn zeta. split; [reflexivity|].
  exact (delivered_value_is_final
           [NewChannel None; Put 0 (VInt 3) true; Select [0] true]
           [Put 0 (VInt 4) true; Select [0] true; Offer 0 (VInt 5)]
           0 (VInt 3) eq_refl).
Defined.



Lemma select_served_by_next_put_witness :
  Forall (λ c, ∃ self, channels two_empty_channels !! c = Some self
                       ∧ Channel._pending self = []
                       ∧ Channel._waiting_writers self = []
                       ∧ Forall (λ r, stale_at (heap two_empty_channels) r
                                      = true)
                                (Channel._waiting_readers self)) [0; 1] ∧
  1 ∈ [0; 1] ∧
  let s1 := channel_select two_empty_channels [0; 1] true in
  let s2 := chan_put s1.1 1 (VInt 3) true in
  s1.2 = Waiting (OnSelector 0)
  ∧ s2.2 = Returned VNone
  ∧ get_at (heap s2.1) 0 = Returned (VInt 3).
Proof.
  assert (HF : Forall (λ c, ∃ self,
                         channels two_empty_channels !! c = Some self
                         ∧ Channel._pending self = []
                         ∧ Channel._waiting_writers self = []
                         ∧ Forall (λ r, stale_at (heap two_empty_channels) r
                                        = true)
                                  (Channel._waiting_readers self)) [0; 1]).
  { repeat constructor; eexists; (split; [reflexivity|]);
      repeat split; constructor. }
  assert (Hin : 1 ∈ [0; 1]) by (apply elem_of_cons; right; constructor).
  split; [exact HF|]. split; [exact Hin|].
  destruct (select_served_by_next_put two_empty_channels [0; 1] 1 (VInt 3)
              true HF Hin) as (H1 & H2 & H3 & _).
  cbn zeta. split; [exact H1|]. split; [exact H2|exact H3].
Defined.

Lemma zero_size_put_witness :
  Channel._max (sized 0) = Some 0%Z ∧
  (0 ≤ 0)%Z ∧
  Channel._pending (sized 0) = [] ∧
  (Channel.put no_heap (sized 0) (VInt 1) true).2 = Waiting (OnEvent 0) ∧
  (Channel.put no_heap (sized 0) (VInt 1) false).2 = Raised Channel_Full.
Proof.
  split; [reflexivity|]. split; [lia|]. split; [reflexivity|].
  assert (Hle : (0 ≤ 0)%Z) by lia.
  destruct (zero_size_put no_heap (sized 0) (VInt 1) true 0%Z
              eq_refl Hle eq_refl) as (_ & Hb & _).
  destruct (zero_size_put no_heap (sized 0) (VInt 1) false 0%Z
              eq_refl Hle eq_refl) as (_ & Hn & _).
  split; [apply Hb; constructor|apply Hn; constructor].
Defined.
